(** * EncryptoVault: the access-controlled encrypted-document ledger

    A shallow embedding of the [EncryptoVault] Solidity contract, of the
    symmetric body codec of the front end ([utils/crypto.ts]) and of the
    [updateBody] handler of [VaultApp.tsx], with the properties the
    specification states about them. *)

From Stdlib Require Import ZArith Lia List String Ascii Bool.
From Stdlib.Strings Require Import Byte.
From Stdlib Require Import DecimalPos.
From stdpp Require Import base decidable option list gmap strings.

Local Open Scope N_scope.

(** ** Solidity value types *)

(** [address] is a 160-bit and [uint256] a 256-bit unsigned integer. *)
Abbreviation address := N.
Abbreviation uint256 := N.
Definition MAX_UINT256 : N := 2 ^ 256 - 1.
Definition address0 : address := 0.

(** ** The confidential-value store (the FHE library and its ACL)

    The contract imports [FHE], [euint64] and [externalEuint64] from
    [@fhevm/solidity]; that library is not part of the repository. *)

(** The library is taken as a parameter, in the shape of the
    ConfidentialValueStore interface of the specification: [fromExternal]
    is its [mint] (the arguments are the external handle, the input proof
    and [msg.sender]; [None] when the library reverts because the handle
    and the proof do not verify for that sender), [allow] its [authorize]
    ([FHE.allow], and [FHE.allowThis] at [address(this)]) and [isAllowed]
    its [isAuthorized] ([FHE.isSenderAllowed] at [msg.sender]). *)
Class ConfidentialValueStore := {
  euint64 : Type;                 (* the opaque handle *)
  acl : Type;                     (* the state of the external authority *)
  euint64_zero : euint64;         (* the value of an unset storage slot *)
  fromExternal : N -> string -> address -> acl -> option (euint64 * acl);
  allow : euint64 -> address -> acl -> acl;
  isAllowed : euint64 -> address -> acl -> bool
}.

(** A store is lawful when an authorization, once made, is seen. *)
Class ConfidentialValueStoreLaws (C : ConfidentialValueStore) : Prop := {
  isAllowed_allow : forall h a s, isAllowed h a (allow h a s) = true
}.

Module Vault.
Section Ledger.
Context {CVS : ConfidentialValueStore}.

(** ** Storage *)

Record Document := mkDocument {
  name : string;
  encryptedBody : string;
  encryptedSecret : euint64;
  owner : address;
  updatedAt : uint256
}.

Inductive Event :=
| DocumentCreated (documentId : uint256) (owner : address) (name : string)
| DocumentUpdated (documentId : uint256) (editor : address) (encryptedBody : string)
| AccessGranted (documentId : uint256) (grantee : address).

Inductive Error :=
| DocumentNotFound (documentId : uint256)
| NotDocumentOwner (caller : address)
| Unauthorized (caller : address)
| InvalidAddress
| EmptyName
| InputRejected              (* FHE.fromExternal reverts *)
| Panic (code : N).          (* 0x11: checked arithmetic overflow *)

(** The contract's storage, the log of emitted events and the state of the
    external authority. A Solidity mapping is total: a key never written
    reads as the zero value ([doc_at], [collab_at], [list_at]). *)
Record State := mkState {
  _documentCount : uint256;
  _documents : gmap N Document;
  _collaborators : gmap (N * N) bool;
  _collaboratorList : gmap N (list address);
  events : list Event;
  fhe : acl
}.

Definition zeroDocument : Document :=
  mkDocument "" "" euint64_zero address0 0.

Definition doc_at (st : State) (documentId : uint256) : Document :=
  default zeroDocument (_documents st !! documentId).

Definition collab_at (st : State) (documentId : uint256) (user : address) : bool :=
  default false (_collaborators st !! (documentId, user)).

Definition list_at (st : State) (documentId : uint256) : list address :=
  default [] (_collaboratorList st !! documentId).

(** The transaction context: [msg.sender], [block.timestamp] and
    [address(this)]. *)
Record Env := mkEnv {
  sender : address;
  timestamp : uint256;
  this : address
}.

Definition initial (a : acl) : State := mkState 0 ∅ ∅ ∅ [] a.

(** A call either reverts with an error, leaving the state as it was, or
    returns a value and the next state. *)
Definition tx (A : Type) : Type := Error + A * State.

(** ** The contract's functions *)

Definition createDocument (e : Env) (name : string) (encryptedSecret : N)
    (inputProof : string) (st : State) : tx uint256 :=
  if (String.length name =? 0)%nat then inl EmptyName
  else
    match fromExternal encryptedSecret inputProof (sender e) (fhe st) with
    | None => inl InputRejected
    | Some (secret, a1) =>
        if _documentCount st =? MAX_UINT256 then inl (Panic 17)
        else
          let documentId := _documentCount st + 1 in
          let doc := mkDocument name "" secret (sender e) (timestamp e) in
          let a2 := allow secret (sender e) a1 in
          let a3 := allow secret (this e) a2 in
          inr (documentId,
               mkState documentId
                       (<[documentId := doc]> (_documents st))
                       (<[(documentId, sender e) := true]> (_collaborators st))
                       (<[documentId := list_at st documentId ++ [sender e]]>
                          (_collaboratorList st))
                       (events st ++ [DocumentCreated documentId (sender e) name])
                       a3)
    end.

Definition grantAccess (e : Env) (documentId : uint256) (grantee : address)
    (st : State) : tx unit :=
  let doc := doc_at st documentId in
  if owner doc =? address0 then inl (DocumentNotFound documentId)
  else if negb (owner doc =? sender e) then inl (NotDocumentOwner (sender e))
  else if grantee =? address0 then inl InvalidAddress
  else
    let '(c, l) :=
      if negb (collab_at st documentId grantee)
      then (<[(documentId, grantee) := true]> (_collaborators st),
            <[documentId := list_at st documentId ++ [grantee]]> (_collaboratorList st))
      else (_collaborators st, _collaboratorList st) in
    inr (tt,
         mkState (_documentCount st) (_documents st) c l
                 (events st ++ [AccessGranted documentId grantee])
                 (allow (encryptedSecret doc) grantee (fhe st))).

Definition updateDocumentBody (e : Env) (documentId : uint256)
    (encryptedBody : string) (st : State) : tx unit :=
  let doc := doc_at st documentId in
  if owner doc =? address0 then inl (DocumentNotFound documentId)
  else if negb (isAllowed (encryptedSecret doc) (sender e) (fhe st))
  then inl (Unauthorized (sender e))
  else
    let doc' := mkDocument (name doc) encryptedBody (encryptedSecret doc)
                           (owner doc) (timestamp e) in
    inr (tt,
         mkState (_documentCount st)
                 (<[documentId := doc']> (_documents st))
                 (_collaborators st) (_collaboratorList st)
                 (events st ++ [DocumentUpdated documentId (sender e) encryptedBody])
                 (allow (encryptedSecret doc) (sender e) (fhe st))).

(** The views revert or return; they never change the state. *)
Definition getDocument (documentId : uint256) (st : State) : Error + Document :=
  let doc := doc_at st documentId in
  if owner doc =? address0 then inl (DocumentNotFound documentId) else inr doc.

Definition getDocuments (st : State) : list Document :=
  map (fun i => doc_at st (N.of_nat i + 1)) (seq 0 (N.to_nat (_documentCount st))).

Definition isAuthorized (documentId : uint256) (user : address) (st : State)
    : Error + bool :=
  let doc := doc_at st documentId in
  if owner doc =? address0 then inl (DocumentNotFound documentId)
  else inr (collab_at st documentId user).

Definition getCollaborators (documentId : uint256) (st : State)
    : Error + list address :=
  let doc := doc_at st documentId in
  if owner doc =? address0 then inl (DocumentNotFound documentId)
  else inr (list_at st documentId).

Definition documentCount (st : State) : uint256 := _documentCount st.

(** ** Runs of the ledger *)

Inductive Call :=
| CreateDocument (name : string) (encryptedSecret : N) (inputProof : string)
| GrantAccess (documentId : uint256) (grantee : address)
| UpdateDocumentBody (documentId : uint256) (encryptedBody : string).

Definition exec (e : Env) (c : Call) (st : State) : Error + State :=
  match c with
  | CreateDocument n s p =>
      match createDocument e n s p st with inl err => inl err | inr (_, st') => inr st' end
  | GrantAccess i g =>
      match grantAccess e i g st with inl err => inl err | inr (_, st') => inr st' end
  | UpdateDocumentBody i b =>
      match updateDocumentBody e i b st with inl err => inl err | inr (_, st') => inr st' end
  end.

Definition with_fhe (a : acl) (st : State) : State :=
  mkState (_documentCount st) (_documents st) (_collaborators st)
          (_collaboratorList st) (events st) a.

(** The states of a deployed contract: it starts empty, every transaction
    that does not revert is a step (a transaction is signed, so that
    [msg.sender] is never the zero address), and the external authority may
    change on its own between two transactions. *)
Inductive reachable : State -> Prop :=
| reachable_initial a : reachable (initial a)
| reachable_call st e c st' :
    reachable st -> sender e <> address0 -> exec e c st = inr st' -> reachable st'
| reachable_external st a :
    reachable st -> reachable (with_fhe a st).

(** Runs a list of transactions, skipping the ones that revert. *)
Fixpoint run (cs : list (Env * Call)) (st : State) : State :=
  match cs with
  | [] => st
  | (e, c) :: cs' =>
      match exec e c st with
      | inl _ => run cs' st
      | inr st' => run cs' st'
      end
  end.

(** ** The order of first authorization, read off the event log *)

(** The identities an event authorizes for a document: its creator at
    creation, the grantee at each grant. *)
Definition authorized_by (documentId : uint256) (ev : Event) : list address :=
  match ev with
  | DocumentCreated i o _ => if i =? documentId then [o] else []
  | AccessGranted i g => if i =? documentId then [g] else []
  | DocumentUpdated _ _ _ => []
  end.

Definition authorizations (documentId : uint256) (log : list Event) : list address :=
  flat_map (authorized_by documentId) log.

(** Keeps the first occurrence of every identity, in order. *)
Definition first_order (l : list address) : list address :=
  fold_left (fun acc a => if decide (a ∈ acc) then acc else acc ++ [a]) l [].

(** The identifiers the log records as created, oldest first. *)
Definition created_ids (log : list Event) : list uint256 :=
  flat_map (fun ev => match ev with
                      | DocumentCreated i _ _ => [i]
                      | _ => []
                      end) log.

(** The identifiers 1, 2, ..., [n]. *)
Definition ids_upto (n : uint256) : list uint256 :=
  map N.of_nat (seq 1 (N.to_nat n)).

(** ** The invariant of the storage *)

Record Inv (st : State) : Prop := mkInv {
  inv_exists : forall id, owner (doc_at st id) <> address0 <-> 1 <= id <= _documentCount st;
  inv_bound : _documentCount st <= MAX_UINT256;
  inv_created : created_ids (events st) = ids_upto (_documentCount st);
  inv_list : forall id, list_at st id = first_order (authorizations id (events st));
  inv_collab : forall id a, collab_at st id a = true <-> a ∈ list_at st id;
  inv_owner : forall id,
      owner (doc_at st id) <> address0 -> owner (doc_at st id) ∈ list_at st id;
  inv_nonzero : forall id, address0 ∉ list_at st id;
  inv_future : forall id,
      _documentCount st < id -> authorizations id (events st) = []
}.

End Ledger.
End Vault.

(** ** The specification's word for the refused name

    The specification has [createDocument] fail with [EmptyName] for a
    name that is blank: one holding no character other than white space,
    the empty name among them. *)

Module VaultSpec.

Definition isSpace (c : ascii) : bool :=
  let n := nat_of_ascii c in
  ((n =? 32) || ((9 <=? n) && (n <=? 13)))%nat.

Fixpoint isBlank (s : string) : bool :=
  match s with
  | EmptyString => true
  | String c r => isSpace c && isBlank r
  end.

End VaultSpec.

(** ** The symmetric body codec ([utils/crypto.ts]) *)

Module Codec.
Local Open Scope Z_scope.

(** A JavaScript string is a sequence of UTF-16 code units; an
    [ArrayBuffer] or [Uint8Array] is a sequence of bytes. *)
Definition jsstring := list Z.
Definition bytes := list byte.

Definition code_unit (c : Z) : Prop := 0 <= c < 65536.

Definition byte_to_Z (b : byte) : Z := Z.of_N (Byte.to_N b).

(** Storing a number in a [Uint8Array] element keeps it modulo 256. *)
Definition byte_of_Z (z : Z) : byte :=
  default x00 (Byte.of_N (Z.to_N (z mod 256))).

(** The code units of a string of ASCII characters. *)
Definition ascii_js (s : string) : jsstring :=
  map (fun c => Z.of_N (N_of_ascii c)) (list_ascii_of_string s).

(** *** The platform's string functions, as the codec uses them *)

Definition COLON : Z := 58.

Definition hexDigit (d : Z) : Z := if d <? 10 then 48 + d else 87 + d.

(** [Number.prototype.toString(16)] on an element of a [Uint8Array]
    (0 to 255): lowercase, no leading zero. *)
Definition toString16 (n : Z) : jsstring :=
  if n <? 16 then [hexDigit n] else [hexDigit (n / 16); hexDigit (n mod 16)].

Definition padStart (n : nat) (c : Z) (s : jsstring) : jsstring :=
  repeat c (n - length s) ++ s.

Definition isLineTerminator (c : Z) : bool :=
  (c =? 10) || (c =? 13) || (c =? 8232) || (c =? 8233).

(** White space as [parseInt] trims it: WhiteSpace and LineTerminator. *)
Definition isStrWhiteSpace (c : Z) : bool :=
  (c =? 9) || (c =? 11) || (c =? 12) || (c =? 32) || (c =? 160)
  || (c =? 5760) || ((8192 <=? c) && (c <=? 8202)) || (c =? 8239)
  || (c =? 8287) || (c =? 12288) || (c =? 65279) || isLineTerminator c.

(** [hex.match(/.{1,2}/g) ?? []]: the dot matches any code unit but a line
    terminator, so that the matches are the greedy runs of one or two
    such units, left to right. *)
Fixpoint match_pairs (s : jsstring) : list jsstring :=
  match s with
  | [] => []
  | c :: rest =>
      if isLineTerminator c then match_pairs rest
      else match rest with
           | [] => [[c]]
           | d :: rest' =>
               if isLineTerminator d then [c] :: match_pairs rest
               else [c; d] :: match_pairs rest'
           end
  end.

Definition hexValue (c : Z) : option Z :=
  if (48 <=? c) && (c <=? 57) then Some (c - 48)
  else if (97 <=? c) && (c <=? 102) then Some (c - 87)
  else if (65 <=? c) && (c <=? 70) then Some (c - 55)
  else None.

Fixpoint hexPrefix (s : jsstring) : list Z :=
  match s with
  | [] => []
  | c :: r => match hexValue c with Some d => d :: hexPrefix r | None => [] end
  end.

Fixpoint trimStart (s : jsstring) : jsstring :=
  match s with
  | [] => []
  | c :: r => if isStrWhiteSpace c then trimStart r else s
  end.

(** [parseInt(s, 16)]: leading white space, a sign and a [0x] prefix are
    skipped, then the longest run of hexadecimal digits is read; [None] is
    [NaN]. (The strings read here have at most two code units, so that the
    result is exact.) *)
Definition parseInt16 (s : jsstring) : option Z :=
  let s1 := trimStart s in
  let '(sign, s2) :=
    match s1 with
    | 45 :: r => (-1, r)
    | 43 :: r => (1, r)
    | _ => (1, s1)
    end in
  let s3 :=
    match s2 with
    | 48 :: x :: r => if (x =? 120) || (x =? 88) then r else s2
    | _ => s2
    end in
  match hexPrefix s3 with
  | [] => None
  | ds => Some (sign * fold_left (fun acc d => acc * 16 + d) ds 0)
  end.

(** The conversion of a number to a [Uint8Array] element: [NaN] is 0. *)
Definition toUint8 (v : option Z) : byte :=
  match v with
  | None => x00
  | Some z => byte_of_Z z
  end.

(** [String.prototype.split(sep)] for a separator of one code unit. *)
Fixpoint split (sep : Z) (s : jsstring) : list jsstring :=
  match s with
  | [] => [[]]
  | c :: r =>
      if c =? sep then [] :: split sep r
      else match split sep r with
           | p :: ps => (c :: p) :: ps
           | [] => [[c]]
           end
  end.

(** *** [TextEncoder] and [TextDecoder] (UTF-8, the defaults) *)

Definition isHighSurrogate (c : Z) : bool := (55296 <=? c) && (c <=? 56319).
Definition isLowSurrogate (c : Z) : bool := (56320 <=? c) && (c <=? 57343).

Definition REPLACEMENT : Z := 65533.
Definition BOM : Z := 65279.

(** The scalar values of a string: a surrogate pair is one code point, a
    lone surrogate is replaced by U+FFFD. *)
Fixpoint toScalars (s : jsstring) : list Z :=
  match s with
  | [] => []
  | c :: r =>
      if isHighSurrogate c then
        match r with
        | [] => [REPLACEMENT]
        | d :: r' =>
            if isLowSurrogate d
            then (65536 + (c - 55296) * 1024 + (d - 56320)) :: toScalars r'
            else REPLACEMENT :: toScalars r
        end
      else if isLowSurrogate c then REPLACEMENT :: toScalars r
      else c :: toScalars r
  end.

Definition utf8_encode_cp (cp : Z) : list Z :=
  if cp <? 128 then [cp]
  else if cp <? 2048 then [192 + cp / 64; 128 + cp mod 64]
  else if cp <? 65536 then
    [224 + cp / 4096; 128 + cp / 64 mod 64; 128 + cp mod 64]
  else [240 + cp / 262144; 128 + cp / 4096 mod 64;
        128 + cp / 64 mod 64; 128 + cp mod 64].

Definition encode (s : jsstring) : bytes :=
  map byte_of_Z (flat_map utf8_encode_cp (toScalars s)).

(** The contract library's [toUtf8Bytes], which encodes the string
    arguments of a contract call, one code unit at a time. A high
    surrogate must be followed by a low one, else the function throws
    ("invalid surrogate pair"): [None]. A low surrogate that follows no
    high one is encoded as any other code unit, in three bytes. *)
Fixpoint toUtf8Bytes (s : jsstring) : option (list Z) :=
  match s with
  | [] => Some []
  | c :: r =>
      if c <? 128 then option_map (cons c) (toUtf8Bytes r)
      else if c <? 2048 then
        option_map
          (app [Z.lor (Z.shiftr c 6) 192; Z.lor (Z.land c 63) 128])
          (toUtf8Bytes r)
      else if Z.land c 64512 =? 55296 then
        match r with
        | [] => None
        | c2 :: r' =>
            if Z.land c2 64512 =? 56320 then
              let pair := 65536 + Z.shiftl (Z.land c 1023) 10 + Z.land c2 1023 in
              option_map
                (app [Z.lor (Z.shiftr pair 18) 240;
                      Z.lor (Z.land (Z.shiftr pair 12) 63) 128;
                      Z.lor (Z.land (Z.shiftr pair 6) 63) 128;
                      Z.lor (Z.land pair 63) 128])
                (toUtf8Bytes r')
            else None
        end
      else
        option_map
          (app [Z.lor (Z.shiftr c 12) 224;
                Z.lor (Z.land (Z.shiftr c 6) 63) 128;
                Z.lor (Z.land c 63) 128])
          (toUtf8Bytes r)
  end.

(** The UTF-8 decoder of the Encoding Standard, one byte at a time. *)
Record Utf8State := mkUtf8 {
  codePoint : Z;
  bytesSeen : Z;
  bytesNeeded : Z;
  lowerBoundary : Z;
  upperBoundary : Z
}.

Definition utf8_init : Utf8State := mkUtf8 0 0 0 128 191.

(** A byte read when no sequence is open. *)
Definition utf8_lead (b : Z) : Utf8State * list Z :=
  if b <=? 127 then (utf8_init, [b])
  else if (194 <=? b) && (b <=? 223) then (mkUtf8 (b mod 32) 0 1 128 191, [])
  else if (224 <=? b) && (b <=? 239) then
    (mkUtf8 (b mod 16) 0 2 (if b =? 224 then 160 else 128)
            (if b =? 237 then 159 else 191), [])
  else if (240 <=? b) && (b <=? 244) then
    (mkUtf8 (b mod 8) 0 3 (if b =? 240 then 144 else 128)
            (if b =? 244 then 143 else 191), [])
  else (utf8_init, [REPLACEMENT]).

Definition utf8_step (st : Utf8State) (b : Z) : Utf8State * list Z :=
  if bytesNeeded st =? 0 then utf8_lead b
  else if negb ((lowerBoundary st <=? b) && (b <=? upperBoundary st)) then
    (* an error; the byte is read again with no sequence open *)
    let '(st', out) := utf8_lead b in (st', REPLACEMENT :: out)
  else
    let cp := codePoint st * 64 + b mod 64 in
    if bytesSeen st + 1 =? bytesNeeded st then (utf8_init, [cp])
    else (mkUtf8 cp (bytesSeen st + 1) (bytesNeeded st) 128 191, []).

Fixpoint utf8_decode (st : Utf8State) (bs : list Z) : list Z :=
  match bs with
  | [] => if bytesNeeded st =? 0 then [] else [REPLACEMENT]
  | b :: r => let '(st', out) := utf8_step st b in out ++ utf8_decode st' r
  end.

Definition utf16_encode_cp (cp : Z) : jsstring :=
  if cp <? 65536 then [cp]
  else [55296 + (cp - 65536) / 1024; 56320 + (cp - 65536) mod 1024].

(** A decoder built with no option has [ignoreBOM] false: a leading byte
    order mark is dropped from the output. *)
Definition stripBOM (cps : list Z) : list Z :=
  match cps with
  | c :: r => if c =? BOM then r else cps
  | [] => []
  end.

Definition decode (b : bytes) : jsstring :=
  flat_map utf16_encode_cp (stripBOM (utf8_decode utf8_init (map byte_to_Z b))).

(** [String.prototype.isWellFormed]: no lone surrogate. *)
Fixpoint isWellFormed (s : jsstring) : bool :=
  match s with
  | [] => true
  | c :: r =>
      if isHighSurrogate c then
        match r with
        | [] => false
        | d :: r' => isLowSurrogate d && isWellFormed r'
        end
      else negb (isLowSurrogate c) && (0 <=? c) && (c <? 65536) && isWellFormed r
  end.

(** A Unicode scalar value: a code point that is not a surrogate. *)
Definition scalar (cp : Z) : Prop :=
  0 <= cp < 55296 \/ 57344 <= cp < 1114112.

(** *** Web Crypto *)

(** [crypto.subtle] is the platform's: SHA-256 and AES-GCM are taken as
    given. Decryption returns [None] when it rejects (the tag does not
    verify, or the input is not acceptable). *)
Class WebCrypto := {
  sha256 : bytes -> bytes;
  aes_gcm_encrypt : bytes -> bytes -> bytes -> bytes;   (* key, iv, data *)
  aes_gcm_decrypt : bytes -> bytes -> bytes -> option bytes
}.

Class WebCryptoLaws (W : WebCrypto) : Prop := {
  aes_gcm_decrypt_encrypt :
    forall key iv data,
      aes_gcm_decrypt key iv (aes_gcm_encrypt key iv data) = Some data;
  aes_gcm_encrypt_length :
    forall key iv data,
      length (aes_gcm_encrypt key iv data) = (length data + 16)%nat
}.

(** The errors of the codec, under the names of the specification. *)
Inductive CodecError :=
| MalformedPayload        (* Error('Encrypted body is malformed') *)
| InvalidEncoding         (* Error('Invalid hex string length') *)
| AuthenticationFailure.  (* crypto.subtle.decrypt rejects *)

Section Body.
Context {W : WebCrypto}.

Definition toHex (buffer : bytes) : jsstring :=
  concat (map (fun b => padStart 2 48 (toString16 (byte_to_Z b))) buffer).

Definition fromHex (hex : jsstring) : CodecError + bytes :=
  if negb (Z.of_nat (length hex) mod 2 =? 0) then inl InvalidEncoding
  else
    let pairs := match_pairs hex in
    inr (map (fun byte => toUint8 (parseInt16 byte)) pairs).

Definition deriveKey (secret : jsstring) : bytes := sha256 (encode secret).

(** [iv] is the nonce that [crypto.getRandomValues(new Uint8Array(12))]
    draws. *)
Definition encryptBody (secret : jsstring) (iv : bytes) (body : jsstring)
    : jsstring :=
  let key := deriveKey secret in
  let encrypted := aes_gcm_encrypt key iv (encode body) in
  toHex iv ++ [COLON] ++ toHex encrypted.

Definition decryptBody (secret : jsstring) (payload : jsstring)
    : CodecError + jsstring :=
  match payload with
  | [] => inr []
  | _ =>
      let pieces := split COLON payload in
      let ivHex := nth 0 pieces [] in
      match ivHex, nth_error pieces 1 with
      | [], _ | _, None | _, Some [] => inl MalformedPayload
      | _, Some dataHex =>
          let key := deriveKey secret in
          match fromHex ivHex with
          | inl err => inl err
          | inr iv =>
              match fromHex dataHex with
              | inl err => inl err
              | inr data =>
                  match aes_gcm_decrypt key iv data with
                  | None => inl AuthenticationFailure
                  | Some decrypted => inr (decode decrypted)
                  end
              end
          end
      end
  end.

End Body.
End Codec.

(** ** The decryption the specification words

    Kept apart from [Codec.decryptBody], which follows the source, to be
    compared with it. *)

Module CodecSpec.
Import Codec.
Local Open Scope Z_scope.

(** The part before the first colon, and the part after it when there is
    a colon. *)
Fixpoint split_first (s : jsstring) : jsstring * option jsstring :=
  match s with
  | [] => ([], None)
  | c :: r =>
      if c =? COLON then ([], Some r)
      else let '(a, b) := split_first r in (c :: a, b)
  end.

Definition isHex (s : jsstring) : bool :=
  forallb (fun c => match hexValue c with Some _ => true | None => false end) s.

Definition decodeHex (h : jsstring) : CodecError + bytes :=
  if negb (Z.of_nat (length h) mod 2 =? 0) || negb (isHex h)
  then inl InvalidEncoding
  else fromHex h.

Definition decrypt {W : WebCrypto} (secret payload : jsstring)
    : CodecError + jsstring :=
  match payload with
  | [] => inr []
  | _ =>
      match split_first payload with
      | ([], _) | (_, None) | (_, Some []) => inl MalformedPayload
      | (ivHex, Some dataHex) =>
          match decodeHex ivHex with
          | inl err => inl err
          | inr iv =>
              match decodeHex dataHex with
              | inl err => inl err
              | inr data =>
                  match aes_gcm_decrypt (deriveKey secret) iv data with
                  | None => inl AuthenticationFailure
                  | Some decrypted => inr (decode decrypted)
                  end
              end
          end
      end
  end.

End CodecSpec.

(** ** The session layer: [updateBody] of [VaultApp.tsx] *)

Module Session.
Import Vault Codec.
Section App.
Context {CVS : ConfidentialValueStore} {W : WebCrypto}.

(** The state of the component that [updateBody] reads and writes, and
    the console. *)
Record AppState := mkApp {
  selectedId : option N;              (* number | null *)
  documents : list Document;          (* the result of getDocuments *)
  clearSecret : jsstring;
  bodyDraft : jsstring;
  decryptedBody : jsstring;
  status : option string;
  isUpdating : bool;
  console : list Error                (* what console.error was given *)
}.

Definition setStatus (m : string) (a : AppState) : AppState :=
  mkApp (selectedId a) (documents a) (clearSecret a) (bodyDraft a)
        (decryptedBody a) (Some m) (isUpdating a) (console a).

Definition setIsUpdating (b : bool) (a : AppState) : AppState :=
  mkApp (selectedId a) (documents a) (clearSecret a) (bodyDraft a)
        (decryptedBody a) (status a) b (console a).

Definition setDecryptedBody (s : jsstring) (a : AppState) : AppState :=
  mkApp (selectedId a) (documents a) (clearSecret a) (bodyDraft a)
        s (status a) (isUpdating a) (console a).

Definition setDocuments (d : list Document) (a : AppState) : AppState :=
  mkApp (selectedId a) d (clearSecret a) (bodyDraft a)
        (decryptedBody a) (status a) (isUpdating a) (console a).

Definition console_error (err : Error) (a : AppState) : AppState :=
  mkApp (selectedId a) (documents a) (clearSecret a) (bodyDraft a)
        (decryptedBody a) (status a) (isUpdating a) (console a ++ [err]).

(** [selectedId ? documents[selectedId - 1] : undefined] *)
Definition activeDocument (a : AppState) : option Document :=
  match selectedId a with
  | None | Some 0%N => None
  | Some i => nth_error (documents a) (N.to_nat (i - 1))
  end.

(** [selectedId ? BigInt(selectedId) : BigInt(0)] *)
Definition activeDocumentIndex (a : AppState) : N :=
  match selectedId a with
  | None => 0%N
  | Some i => i
  end.

(** A string argument of a contract call is sent as the bytes that the
    contract library's [toUtf8Bytes] gives; the call throws, and nothing
    is sent, where that function throws. *)
Definition abi_encode_string (s : jsstring) : option string :=
  option_map (fun l => string_of_list_byte (map byte_of_Z l)) (toUtf8Bytes s).

(** The UTF-8 bytes of a string. On a string of ASCII characters they are
    the bytes that [abi_encode_string] sends, and that function does not
    throw; such are the payloads of [updateBody], made of hexadecimal
    digits and a colon. *)
Definition abi_string (s : jsstring) : string :=
  string_of_list_byte (encode s).

(** [updateBody]. The result is what the caller of the handler gets: [inl]
    an error thrown to it, [inr] the states after a normal return. [signer]
    is the account of the resolved signer, [None] when there is none; [iv]
    is the nonce drawn by [encryptBody]; [now] and [self] are the block
    time and the contract's address of the transaction. *)
Definition updateBody (signer : option address) (iv : bytes)
    (now : uint256) (self : address) (a : AppState) (chain : State)
    : Error + AppState * State :=
  match activeDocument a, clearSecret a with
  | None, _ | _, [] => inr (setStatus "Decrypt the secret before saving." a, chain)
  | Some _, _ =>
      match signer with
      | None => inr (setStatus "No signer available." a, chain)
      | Some account =>
          let a1 := setStatus "Encrypting document body and sending transaction..."
                      (setIsUpdating true a) in
          (* try *)
          let encryptedPayload := encryptBody (clearSecret a) iv (bodyDraft a) in
          match updateDocumentBody (mkEnv account now self)
                  (activeDocumentIndex a) (abi_string encryptedPayload) chain with
          | inr (_, chain') =>
              let a2 := setStatus "Document updated on-chain."
                          (setDecryptedBody (bodyDraft a) a1) in
              let a3 := setDocuments (getDocuments chain') a2 in
              (* finally *)
              inr (setIsUpdating false a3, chain')
          | inl err =>
              (* catch (err) *)
              let a2 := setStatus "Update failed. Confirm you have ACL to this document."
                          (console_error err a1) in
              (* finally *)
              inr (setIsUpdating false a2, chain)
          end
      end
  end.

End App.
End Session.

(** ** Stand-ins for the external parties

    An in-process confidential-value store and a cipher that keeps the
    laws of [WebCryptoLaws]; the general theorems hold for every store and
    every lawful cipher, the examples are run on these. The store numbers
    the handles it gives and refuses an input whose proof is empty. *)

Module MapStore.

Record t := mk { next : N; allowed : gset (N * N) }.

Definition empty : t := mk 0 ∅.

Definition store : ConfidentialValueStore := {|
  euint64 := N;
  acl := t;
  euint64_zero := 0;
  fromExternal := fun _ inputProof scopeOwner s =>
    match inputProof with
    | EmptyString => None           (* a proof that does not verify *)
    | _ => Some (next s + 1,
                 mk (next s + 1) ({[ (next s + 1, scopeOwner) ]} ∪ allowed s))
    end;
  allow := fun h a s => mk (next s) ({[ (h, a) ]} ∪ allowed s);
  isAllowed := fun h a s => bool_decide ((h, a) ∈ allowed s)
|}.

End MapStore.

Module TagCipher.
Import Codec.

Definition tag : bytes := repeat x2a 16.

Definition bytes_eqb (a b : bytes) : bool :=
  bool_decide (map byte_to_Z a = map byte_to_Z b).

Definition cipher : WebCrypto := {|
  sha256 := fun b => b;
  aes_gcm_encrypt := fun _ _ data => data ++ tag;
  aes_gcm_decrypt := fun _ _ c =>
    let n := (length c - 16)%nat in
    if bytes_eqb (drop n c) tag && (16 <=? length c)%nat
    then Some (take n c) else None
|}.

End TagCipher.

(** ** A small run, for the examples *)

Module Scenario.
Import Vault.
#[local] Existing Instance MapStore.store.

Definition alice : address := 1001.
Definition bob : address := 1002.
Definition carol : address := 1003.
Definition vault : address := 9000.

Definition by_ (a : address) (t : uint256) : Env := mkEnv a t vault.

Definition deployed : State := initial MapStore.empty.

(** Alice creates document 1. *)
Definition created : State :=
  run [(by_ alice 100, CreateDocument "Doc One" 7 "proof")] deployed.

Definition doc1 : Document := mkDocument "Doc One" "" 1 alice 100.

(** Alice shares it with Bob. *)
Definition shared : State :=
  run [(by_ alice 200, GrantAccess 1 bob)] created.

(** The authority once it has taken a second input, from Alice. *)
Definition allowed_after_second : MapStore.t :=
  MapStore.mk 2 ({[ (2, alice) ]} ∪ MapStore.allowed (fhe created)).

(** The authority is told, outside the ledger, to allow Carol on the
    handle of document 1. *)
Definition drifted : State :=
  with_fhe (allow (encryptedSecret (doc_at shared 1)) carol (fhe shared)) shared.

(** The authority forgets every authorization, the ledger keeps its own
    record. *)
Definition revoked : State := with_fhe MapStore.empty shared.

(** The session of a user who has document 1 selected, has recovered its
    secret and has typed a body. *)
Definition secret : Codec.jsstring := Codec.ascii_js "123456789".
Definition nonce : Codec.bytes := repeat x01 12.
Definition draft : Codec.jsstring := Codec.ascii_js "hello".

Definition app : Session.AppState :=
  Session.mkApp (Some 1) (getDocuments created) secret draft [] None false [].

(** The ciphertext that session sends to the ledger. *)
Definition payload : string :=
  Session.abi_string (Codec.encryptBody (W := TagCipher.cipher) secret nonce draft).

End Scenario.

(** ** More of the ledger's history and of the authority *)

(** An authority is monotone when nothing it is asked to do takes an
    authorization away. *)
Class ConfidentialValueStoreMonotone (C : ConfidentialValueStore) : Prop := {
  isAllowed_allow_mono :
    forall h a h' a' s,
      isAllowed h a s = true -> isAllowed h a (allow h' a' s) = true;
  isAllowed_fromExternal_mono :
    forall h a x p o s h' s',
      fromExternal x p o s = Some (h', s') ->
      isAllowed h a s = true -> isAllowed h a s' = true
}.

Module VaultLog.
Import Vault.
Section Log.
Context {CVS : ConfidentialValueStore}.

(** The body of the last [DocumentUpdated] event of a document, the empty
    string when the log has none. *)
Definition last_body (documentId : uint256) (log : list Event) : string :=
  fold_left (fun acc ev =>
               match ev with
               | DocumentUpdated i _ b => if i =? documentId then b else acc
               | _ => acc
               end) log ""%string.

End Log.
End VaultLog.

(** ** More of the platform's strings *)

Module CodecText.
Import Codec.
Local Open Scope Z_scope.

(** A lowercase hexadecimal digit. *)
Definition isLowerHex (c : Z) : bool :=
  ((48 <=? c) && (c <=? 57)) || ((97 <=? c) && (c <=? 102)).

(** A code unit of the ASCII range. *)
Definition is_ascii (c : Z) : bool := (0 <=? c) && (c <? 128).

(** A test run over the [fuel] numbers from [z] on. *)
Fixpoint all_from (P : Z -> bool) (fuel : nat) (z : Z) : bool :=
  match fuel with
  | O => true
  | S k => P z && all_from P k (z + 1)
  end.

(** [String.prototype.toWellFormed]: every lone surrogate becomes
    U+FFFD. *)
Fixpoint toWellFormed (s : jsstring) : jsstring :=
  match s with
  | [] => []
  | c :: r =>
      if isHighSurrogate c then
        match r with
        | [] => [REPLACEMENT]
        | d :: r' =>
            if isLowSurrogate d then c :: d :: toWellFormed r'
            else REPLACEMENT :: toWellFormed r
        end
      else if isLowSurrogate c then REPLACEMENT :: toWellFormed r
      else c :: toWellFormed r
  end.

End CodecText.

(** ** The other handlers of [VaultApp.tsx] *)

Module Page.
Import Vault Codec Session.
Section Handlers.
Context {CVS : ConfidentialValueStore} {W : WebCrypto}.

(** The relayer SDK and the address resolution of the contract library are
    taken as parameters: [encryptInput contract user secret] is the handle
    and the proof that [createEncryptedInput(contract, user).add64(secret)
    .encrypt()] returns, [None] when one of these calls throws (the value
    does not fit 64 bits, the relayer fails); [resolveAddress] reads
    the text of an address ([None] when the library refuses it). *)
Variable encryptInput : address -> address -> Z -> option (N * string).
Variable resolveAddress : jsstring -> option address.

(** What these handlers give to [console.error]. *)
Inductive PageError :=
| Reverted (err : Error)          (* the contract call failed *)
| BadAddress                      (* the address text was refused *)
| BadString                       (* toUtf8Bytes: invalid surrogate pair *)
| InputFailed                     (* building the encrypted input threw *)
| RelayerFailed                   (* signing or the relayer threw *)
| NoSecretReturned                (* Error('Relayer did not return a secret') *)
| BodyUnreadable (err : CodecError).   (* decryptBody threw *)

(** The state of the component: the part [updateBody] uses, and the
    rest. *)
Record PageState := mkPage {
  app : AppState;
  nameInput : jsstring;
  secretForCreate : option Z;         (* number | null *)
  grantTarget : jsstring;
  collaboratorData : option (list address);
  isSubmitting : bool;
  isDecrypting : bool;
  isGranting : bool;
  pageConsole : list PageError
}.

Definition with_app (f : AppState -> AppState) (p : PageState) : PageState :=
  mkPage (f (app p)) (nameInput p) (secretForCreate p) (grantTarget p)
         (collaboratorData p) (isSubmitting p) (isDecrypting p) (isGranting p)
         (pageConsole p).

Definition setNameInput (s : jsstring) (p : PageState) : PageState :=
  mkPage (app p) s (secretForCreate p) (grantTarget p)
         (collaboratorData p) (isSubmitting p) (isDecrypting p) (isGranting p)
         (pageConsole p).

Definition setSecretForCreate (v : option Z) (p : PageState) : PageState :=
  mkPage (app p) (nameInput p) v (grantTarget p)
         (collaboratorData p) (isSubmitting p) (isDecrypting p) (isGranting p)
         (pageConsole p).

Definition setGrantTarget (s : jsstring) (p : PageState) : PageState :=
  mkPage (app p) (nameInput p) (secretForCreate p) s
         (collaboratorData p) (isSubmitting p) (isDecrypting p) (isGranting p)
         (pageConsole p).

Definition setCollaboratorData (c : option (list address)) (p : PageState) : PageState :=
  mkPage (app p) (nameInput p) (secretForCreate p) (grantTarget p)
         c (isSubmitting p) (isDecrypting p) (isGranting p) (pageConsole p).

Definition setIsSubmitting (b : bool) (p : PageState) : PageState :=
  mkPage (app p) (nameInput p) (secretForCreate p) (grantTarget p)
         (collaboratorData p) b (isDecrypting p) (isGranting p) (pageConsole p).

Definition setIsDecrypting (b : bool) (p : PageState) : PageState :=
  mkPage (app p) (nameInput p) (secretForCreate p) (grantTarget p)
         (collaboratorData p) (isSubmitting p) b (isGranting p) (pageConsole p).

Definition setIsGranting (b : bool) (p : PageState) : PageState :=
  mkPage (app p) (nameInput p) (secretForCreate p) (grantTarget p)
         (collaboratorData p) (isSubmitting p) (isDecrypting p) b (pageConsole p).

Definition page_error (err : PageError) (p : PageState) : PageState :=
  mkPage (app p) (nameInput p) (secretForCreate p) (grantTarget p)
         (collaboratorData p) (isSubmitting p) (isDecrypting p) (isGranting p)
         (pageConsole p ++ [err]).

Definition setClearSecret (s : jsstring) (a : AppState) : AppState :=
  mkApp (selectedId a) (documents a) s (bodyDraft a)
        (decryptedBody a) (status a) (isUpdating a) (console a).

Definition setBodyDraft (s : jsstring) (a : AppState) : AppState :=
  mkApp (selectedId a) (documents a) (clearSecret a) s
        (decryptedBody a) (status a) (isUpdating a) (console a).

(** [String.prototype.trim]. *)
Definition trim (s : jsstring) : jsstring :=
  rev (trimStart (rev (trimStart s))).

(** A string the contract returns is read from its UTF-8 bytes. *)
Definition abi_decode_string (s : string) : jsstring :=
  decode (list_byte_of_string s).

(** [BigInt.prototype.toString]: the decimal digits, after a minus sign
    for a negative number. *)
Fixpoint uint_digits (u : Decimal.uint) : jsstring :=
  match u with
  | Decimal.Nil => []
  | Decimal.D0 r => 48%Z :: uint_digits r
  | Decimal.D1 r => 49%Z :: uint_digits r
  | Decimal.D2 r => 50%Z :: uint_digits r
  | Decimal.D3 r => 51%Z :: uint_digits r
  | Decimal.D4 r => 52%Z :: uint_digits r
  | Decimal.D5 r => 53%Z :: uint_digits r
  | Decimal.D6 r => 54%Z :: uint_digits r
  | Decimal.D7 r => 55%Z :: uint_digits r
  | Decimal.D8 r => 56%Z :: uint_digits r
  | Decimal.D9 r => 57%Z :: uint_digits r
  end.

Definition bigint_toString (z : Z) : jsstring :=
  match Z.to_int z with
  | Decimal.Pos u => uint_digits u
  | Decimal.Neg u => 45%Z :: uint_digits u
  end.

(** [refetchCollaborators]: the query runs when a document is selected. *)
Definition fetchCollaborators (a : AppState) (chain : State) : option (list address) :=
  match selectedId a with
  | None | Some 0%N => None
  | Some i =>
      match getCollaborators i chain with
      | inr l => Some l
      | inl _ => None
      end
  end.

(** [handleCreateDocument]. [account] is the connected address,
    [instanceReady] tells whether the encryption instance is there,
    [signer] is the account of the resolved signer and [random] the value
    of [Math.floor(100_000_000 + Math.random() * 900_000_000)]. Inside
    [try] three things can throw, in this order: the building of the
    encrypted input, the encoding of the name for the call, the contract
    itself; each ends in the [catch] branch, with the ledger as it was. *)
Definition handleCreateDocument (account : option address) (instanceReady : bool)
    (signer : option address) (random : Z) (now : uint256) (self : address)
    (p : PageState) (chain : State) : PageState * State :=
  match account with
  | None => (with_app (setStatus "Connect your wallet to create a document.") p, chain)
  | Some user =>
      if negb instanceReady
      then (with_app (setStatus "Encryption service is still starting up.") p, chain)
      else
        match signer with
        | None => (with_app (setStatus "No signer available from wallet.") p, chain)
        | Some who =>
            let chosenSecret :=
              match secretForCreate p with Some v => v | None => random end in
            match trim (nameInput p) with
            | [] => (with_app (setStatus "Please give your document a name.") p, chain)
            | _ =>
                let p1 := with_app (setStatus "Encrypting your document key with Zama...")
                            (setIsSubmitting true p) in
                let failed (err : PageError) : PageState * State :=
                  (* catch (err), finally *)
                  (setIsSubmitting false
                     (with_app
                        (setStatus "Failed to create document. Make sure you are on Sepolia and have funds for gas.")
                        (page_error err p1)), chain) in
                (* try *)
                match encryptInput self user chosenSecret with
                | None => failed InputFailed
                | Some (handle, inputProof) =>
                    match abi_encode_string (trim (nameInput p)) with
                    | None => failed BadString
                    | Some name =>
                        match createDocument (mkEnv who now self)
                                name handle inputProof chain with
                        | inr (_, chain') =>
                            let p2 := with_app (setStatus "Document stored on-chain.") p1 in
                            let p3 := setSecretForCreate None (setNameInput [] p2) in
                            let p4 := with_app (setDocuments (getDocuments chain')) p3 in
                            (* finally *)
                            (setIsSubmitting false p4, chain')
                        | inl err => failed (Reverted err)
                        end
                    end
                end
            end
        end
  end.

(** [decryptSecret]. [relayed] is what asking the relayer comes to: [None]
    when signing or the relayer throws, else the entry of the result for
    the document's handle, [None] when it has none. *)
Definition decryptSecret (account : option address) (instanceReady : bool)
    (signer : option address) (relayed : option (option Z)) (p : PageState)
    : PageState :=
  match account, instanceReady, activeDocument (app p) with
  | Some _, true, Some doc =>
      match signer with
      | None => with_app (setStatus "No signer available.") p
      | Some _ =>
          let p1 := with_app (setStatus "Requesting decryption from the relayer...")
                      (setIsDecrypting true p) in
          let failed (err : PageError) (q : PageState) : PageState :=
            (* catch (err), finally *)
            setIsDecrypting false
              (with_app (setStatus "Failed to decrypt. Ensure you have been granted access.")
                 (page_error err q)) in
          (* try *)
          match relayed with
          | None => failed RelayerFailed p1
          | Some None | Some (Some 0%Z) => failed NoSecretReturned p1
          | Some (Some recoveredSecret) =>
              let secretAsString := bigint_toString recoveredSecret in
              let p2 := with_app
                (setStatus "Secret decrypted. You can now read and edit the document body.")
                (with_app (setClearSecret secretAsString) p1) in
              match abi_decode_string (encryptedBody doc) with
              | [] => setIsDecrypting false p2
              | body =>
                  match decryptBody secretAsString body with
                  | inr plainBody =>
                      setIsDecrypting false
                        (with_app (setBodyDraft plainBody)
                           (with_app (setDecryptedBody plainBody) p2))
                  | inl err => failed (BodyUnreadable err) p2
                  end
              end
          end
      end
  | _, _, _ => with_app (setStatus "Missing requirements to decrypt.") p
  end.

(** [grantAccess], the handler of the page. *)
Definition grantAccess (signer : option address) (now : uint256) (self : address)
    (p : PageState) (chain : State) : PageState * State :=
  match grantTarget p, activeDocument (app p) with
  | [], _ | _, None => (with_app (setStatus "Enter an address to grant access.") p, chain)
  | _, Some _ =>
      match signer with
      | None => (with_app (setStatus "No signer available.") p, chain)
      | Some who =>
          let p1 := with_app (setStatus "Granting access...") (setIsGranting true p) in
          let failed (err : PageError) : PageState * State :=
            (* catch (err), finally *)
            (setIsGranting false
               (with_app
                  (setStatus "Unable to grant access. Only the owner can share the document.")
                  (page_error err p1)), chain) in
          (* try *)
          match resolveAddress (grantTarget p) with
          | None => failed BadAddress
          | Some grantee =>
              match Vault.grantAccess (mkEnv who now self)
                      (activeDocumentIndex (app p)) grantee chain with
              | inr (_, chain') =>
                  let p2 := with_app
                    (setStatus "Access granted. Collaborator can now decrypt the secret.")
                    p1 in
                  let p3 := setGrantTarget [] p2 in
                  let p4 := setCollaboratorData (fetchCollaborators (app p) chain') p3 in
                  (* finally *)
                  (setIsGranting false p4, chain')
              | inl err => failed (Reverted err)
              end
          end
      end
  end.

End Handlers.
End Page.

(** ** More of the small run *)

Module Scenario2.
Import Vault Scenario.
#[local] Existing Instance MapStore.store.

(** The two transactions that lead from deployment to [shared]. *)
Definition history : list (Env * Call) :=
  [(by_ alice 100, CreateDocument "Doc One" 7 "proof");
   (by_ alice 200, GrantAccess 1 bob)].

(** What follows: Bob writes a body, Carol creates a document of her
    own, Alice shares hers with Carol. *)
Definition sequel : list (Env * Call) :=
  [(by_ bob 300, UpdateDocumentBody 1 "ciphertext");
   (by_ carol 400, CreateDocument "Notes" 9 "proof");
   (by_ alice 500, GrantAccess 1 carol)].

Definition written : State := run sequel shared.

(** The authority once it has taken Carol's input on the shared ledger. *)
Definition allowed_after_notes : MapStore.t :=
  MapStore.mk 2 ({[ (2, carol) ]} ∪ MapStore.allowed (fhe shared)).

(** The authority once it has taken a third input, from Bob. *)
Definition allowed_after_third : MapStore.t :=
  MapStore.mk 3 ({[ (3, bob) ]} ∪ MapStore.allowed (fhe written)).

End Scenario2.

(** ** A page, for the examples *)

Module Scenario3.
Import Vault Codec Session Page Scenario Scenario2.
#[local] Existing Instance MapStore.store.
#[local] Existing Instance TagCipher.cipher.

Definition nonce2 : bytes := repeat x02 12.

Definition hexText : jsstring := ascii_js "00ff10ab".

(** Stand-ins for the relayer's input encryption, which refuses a value
    that does not fit 64 bits, and for the reading of an address. *)
Definition relayerInput (contract user : address) (secret : Z)
    : option (N * string) :=
  if (0 <=? secret)%Z && (secret <? 2 ^ 64)%Z
  then Some (Z.to_N secret, "proof"%string)
  else None.

Definition addressBook (s : jsstring) : option address :=
  if bool_decide (s = ascii_js "bob") then Some bob
  else if bool_decide (s = ascii_js "carol") then Some carol
  else if bool_decide (s = ascii_js "nobody") then Some address0
  else None.

(** The page of a user who has document 1 selected, with a name and an
    address typed in. *)
Definition page : PageState :=
  mkPage app (ascii_js "  Notes ") None (ascii_js "carol") None false false false [].

Definition blankPage : PageState := setNameInput (ascii_js "   ") page.


Definition tailPage : PageState := setNameInput [56320%Z] page.

(** A text with an accented letter, the euro sign and an emoji (a
    surrogate pair). *)
Definition accented : jsstring := [233; 8364; 55357; 56832]%Z.

(** A secret that does not fit 64 bits. *)
Definition hugePage : PageState := setSecretForCreate (Some (2 ^ 64)%Z) page.


(** Bob saves the draft on the shared ledger. *)
Definition afterWrite : AppState * State :=
  match updateBody (Some bob) nonce 300 vault app shared with
  | inr r => r
  | inl _ => (app, shared)
  end.

Definition pageAfterWrite : PageState :=
  mkPage (fst afterWrite) [] None [] None false false false [].

(** A page on the ledger where document 1 holds a text that is no
    payload. *)
Definition staleDoc : Document := mkDocument "Doc One" "ciphertext" 1 alice 300.

Definition stalePage : PageState :=
  mkPage (mkApp (Some 1) (getDocuments written) [] [] [] None false [])
         [] None [] None false false false [].

End Scenario3.

(** * Properties of the ledger *)

Module VaultFacts.
Import Vault.
Section Facts.
Context {CVS : ConfidentialValueStore}.

Implicit Types (st : State) (e : Env) (id : uint256) (a : address).

(** ** Reading the storage after a write *)

Lemma doc_at_insert c m k l ev f i d j :
  doc_at (mkState c (<[i := d]> m) k l ev f) j
  = if decide (i = j) then d else default zeroDocument (m !! j).
Proof.
  unfold doc_at; simpl. rewrite lookup_insert.
  destruct (decide (i = j)); reflexivity.
Qed.

Lemma collab_at_insert c m k l ev f i a j b :
  collab_at (mkState c m (<[(i, a) := true]> k) l ev f) j b
  = if decide ((i, a) = (j, b)) then true else default false (k !! (j, b)).
Proof.
  unfold collab_at; simpl. rewrite lookup_insert.
  destruct (decide ((i, a) = (j, b))); reflexivity.
Qed.

Lemma list_at_insert c m k l ev f i x j :
  list_at (mkState c m k (<[i := x]> l) ev f) j
  = if decide (i = j) then x else default [] (l !! j).
Proof.
  unfold list_at; simpl. rewrite lookup_insert.
  destruct (decide (i = j)); reflexivity.
Qed.

Lemma getDocument_inr id st d :
  getDocument id st = inr d <-> d = doc_at st id /\ owner (doc_at st id) <> address0.
Proof.
  unfold getDocument.
  destruct (owner (doc_at st id) =? address0) eqn:E.
  - apply N.eqb_eq in E. split; [discriminate | intros [_ H]; contradiction].
  - apply N.eqb_neq in E. split; [intros [= <-]; auto | intros [-> _]; reflexivity].
Qed.

Lemma getDocument_inl id st err :
  getDocument id st = inl err <-> err = DocumentNotFound id /\ owner (doc_at st id) = address0.
Proof.
  unfold getDocument.
  destruct (owner (doc_at st id) =? address0) eqn:E.
  - apply N.eqb_eq in E. split; [intros [= <-]; auto | intros [-> _]; reflexivity].
  - apply N.eqb_neq in E. split; [discriminate | intros [_ H]; contradiction].
Qed.

(** ** The order of first authorization *)

Lemma first_order_snoc (l : list address) a :
  first_order (l ++ [a])
  = if decide (a ∈ first_order l) then first_order l else first_order l ++ [a].
Proof. unfold first_order. rewrite fold_left_app. reflexivity. Qed.

Lemma first_order_elem (l : list address) a : a ∈ first_order l <-> a ∈ l.
Proof.
  induction l as [|x l IH] using rev_ind.
  - reflexivity.
  - rewrite first_order_snoc, elem_of_app, list_elem_of_singleton.
    destruct (decide (x ∈ first_order l)) as [Hx|Hx].
    + rewrite IH. split; [auto | intros [H| ->]; [auto | apply IH, Hx]].
    + rewrite elem_of_app, list_elem_of_singleton, IH. reflexivity.
Qed.

Lemma first_order_NoDup (l : list address) : NoDup (first_order l).
Proof.
  induction l as [|x l IH] using rev_ind.
  - constructor.
  - rewrite first_order_snoc.
    destruct (decide (x ∈ first_order l)) as [Hx|Hx]; [exact IH|].
    apply NoDup_app. split; [exact IH|]. split.
    + intros y Hy Hy'. apply list_elem_of_singleton in Hy'. subst. contradiction.
    + apply NoDup_singleton.
Qed.

Lemma authorizations_snoc id (log : list Event) ev :
  authorizations id (log ++ [ev]) = authorizations id log ++ authorized_by id ev.
Proof.
  unfold authorizations. rewrite flat_map_app. simpl. rewrite app_nil_r. reflexivity.
Qed.

Lemma created_ids_snoc (log : list Event) ev :
  created_ids (log ++ [ev])
  = created_ids log ++ match ev with DocumentCreated i _ _ => [i] | _ => [] end.
Proof.
  unfold created_ids. rewrite flat_map_app. simpl. rewrite app_nil_r. reflexivity.
Qed.

Lemma ids_upto_succ n : ids_upto (n + 1) = ids_upto n ++ [n + 1].
Proof.
  unfold ids_upto.
  replace (N.to_nat (n + 1)) with (S (N.to_nat n)) by lia.
  rewrite seq_S, map_app. simpl. f_equal. f_equal. lia.
Qed.

(** ** What a successful call leaves behind *)

Lemma createDocument_inr e n s p st id st' :
  createDocument e n s p st = inr (id, st') ->
  n <> ""%string /\ _documentCount st <> MAX_UINT256 /\ id = _documentCount st + 1 /\
  exists (secret : euint64) (a1 : acl),
    fromExternal s p (sender e) (fhe st) = Some (secret, a1) /\
    st' = mkState id
            (<[id := mkDocument n "" secret (sender e) (timestamp e)]> (_documents st))
            (<[(id, sender e) := true]> (_collaborators st))
            (<[id := list_at st id ++ [sender e]]> (_collaboratorList st))
            (events st ++ [DocumentCreated id (sender e) n])
            (allow secret (this e) (allow secret (sender e) a1)).
Proof.
  unfold createDocument.
  destruct n as [|c n]; [discriminate|]. simpl String.length. cbn [Nat.eqb].
  destruct (fromExternal s p (sender e) (fhe st)) as [[secret a1]|]; [|discriminate].
  destruct (_documentCount st =? MAX_UINT256) eqn:E; [discriminate|].
  apply N.eqb_neq in E. intros [= <- <-].
  split; [discriminate|]. split; [exact E|]. split; [reflexivity|].
  exists secret, a1. split; reflexivity.
Qed.

Lemma grantAccess_inr e id g st u st' :
  grantAccess e id g st = inr (u, st') ->
  owner (doc_at st id) <> address0 /\ owner (doc_at st id) = sender e /\
  g <> address0 /\
  st' = mkState (_documentCount st) (_documents st)
          (if collab_at st id g then _collaborators st
           else <[(id, g) := true]> (_collaborators st))
          (if collab_at st id g then _collaboratorList st
           else <[id := list_at st id ++ [g]]> (_collaboratorList st))
          (events st ++ [AccessGranted id g])
          (allow (encryptedSecret (doc_at st id)) g (fhe st)).
Proof.
  unfold grantAccess.
  destruct (owner (doc_at st id) =? address0) eqn:E0; [discriminate|].
  destruct (owner (doc_at st id) =? sender e) eqn:E1; [|discriminate].
  destruct (g =? address0) eqn:E2; [discriminate|]. simpl.
  apply N.eqb_neq in E0. apply N.eqb_eq in E1. apply N.eqb_neq in E2.
  destruct (collab_at st id g); simpl; intros [= <-]; auto.
Qed.

Lemma updateDocumentBody_inr e id b st u st' :
  updateDocumentBody e id b st = inr (u, st') ->
  owner (doc_at st id) <> address0 /\
  isAllowed (encryptedSecret (doc_at st id)) (sender e) (fhe st) = true /\
  st' = mkState (_documentCount st)
          (<[id := mkDocument (name (doc_at st id)) b (encryptedSecret (doc_at st id))
                              (owner (doc_at st id)) (timestamp e)]> (_documents st))
          (_collaborators st) (_collaboratorList st)
          (events st ++ [DocumentUpdated id (sender e) b])
          (allow (encryptedSecret (doc_at st id)) (sender e) (fhe st)).
Proof.
  unfold updateDocumentBody.
  destruct (owner (doc_at st id) =? address0) eqn:E0; [discriminate|].
  destruct (isAllowed _ _ _) eqn:E1; [|discriminate]. simpl.
  apply N.eqb_neq in E0. intros [= <-]. auto.
Qed.

(** ** The invariant holds in every reachable state *)

Lemma Inv_initial (a0 : acl) : Inv (initial a0).
Proof.
  split; simpl; try reflexivity.
  - intros id. unfold doc_at. simpl. rewrite lookup_empty. simpl.
    unfold address0. split; [congruence | lia].
  - unfold MAX_UINT256. lia.
  - intros id a. unfold collab_at, list_at. simpl. rewrite !lookup_empty. simpl.
    split; [discriminate | intros H; inversion H].
  - intros id H. exfalso. apply H. unfold doc_at. simpl. rewrite lookup_empty. reflexivity.
  - intros id H. unfold list_at in H. simpl in H. rewrite lookup_empty in H. inversion H.
Qed.

Lemma Inv_with_fhe (a0 : acl) st : Inv st -> Inv (with_fhe a0 st).
Proof. intros [H1 H2 H3 H4 H5 H6 H7 H8]. split; assumption. Qed.

Lemma Inv_createDocument e n s p st id st' :
  Inv st -> sender e <> address0 ->
  createDocument e n s p st = inr (id, st') -> Inv st'.
Proof.
  intros [H1 H2 H3 H4 H5 H6 H7 H8] Hs Hc.
  apply createDocument_inr in Hc as (_ & Hmax & -> & secret & a1 & _ & ->).
  remember (_documentCount st + 1) as i eqn:Hi.
  assert (Hfresh : list_at st i = []).
  { rewrite H4, H8; [reflexivity | lia]. }
  split; simpl.
  - intros j. rewrite doc_at_insert. destruct (decide (i = j)) as [<-|Hne]; simpl.
    + split; [intros _; lia | intros _; exact Hs].
    + fold (doc_at st j). rewrite H1. lia.
  - lia.
  - rewrite created_ids_snoc, H3, Hi, ids_upto_succ. reflexivity.
  - intros j. rewrite list_at_insert, authorizations_snoc. simpl.
    destruct (decide (i = j)) as [<-|Hne].
    + rewrite N.eqb_refl, Hfresh, first_order_snoc, <- H4, Hfresh. simpl.
      destruct (decide (sender e ∈ [])) as [H|_]; [inversion H | reflexivity].
    + fold (list_at st j). apply N.eqb_neq in Hne. rewrite Hne, app_nil_r. apply H4.
  - intros j a. rewrite collab_at_insert, list_at_insert.
    destruct (decide (i = j)) as [<-|Hne].
    + rewrite Hfresh. simpl. destruct (decide ((i, sender e) = (i, a))) as [[= <-]|Hne].
      * split; [intros _; apply list_elem_of_singleton; reflexivity | reflexivity].
      * fold (collab_at st i a). rewrite H5, Hfresh, list_elem_of_singleton.
        split; [intros H; inversion H | intros ->; contradiction].
    + destruct (decide ((i, sender e) = (j, a))) as [[= ? ?]|_]; [contradiction|].
      fold (collab_at st j a) (list_at st j). apply H5.
  - intros j. rewrite doc_at_insert, list_at_insert.
    destruct (decide (i = j)) as [<-|Hne]; simpl.
    + intros _. rewrite Hfresh. apply list_elem_of_singleton. reflexivity.
    + fold (doc_at st j) (list_at st j). apply H6.
  - intros j. rewrite list_at_insert. destruct (decide (i = j)) as [<-|Hne].
    + rewrite Hfresh. simpl. rewrite list_elem_of_singleton. congruence.
    + fold (list_at st j). apply H7.
  - intros j Hj. rewrite authorizations_snoc. simpl.
    assert (Hne : i <> j) by (lia).
    apply N.eqb_neq in Hne. rewrite Hne, app_nil_r. apply H8. lia.
Qed.

Lemma Inv_grantAccess e id g st u st' :
  Inv st -> grantAccess e id g st = inr (u, st') -> Inv st'.
Proof.
  intros [H1 H2 H3 H4 H5 H6 H7 H8] Hc.
  apply grantAccess_inr in Hc as (Hex & Hown & Hg & ->).
  assert (Hid : id <= _documentCount st) by (apply H1 in Hex; lia).
  destruct (collab_at st id g) eqn:Hcg.
  - (* already a collaborator: only the log and the authority change *)
    split; simpl; try assumption.
    + rewrite created_ids_snoc, app_nil_r. exact H3.
    + intros j. rewrite authorizations_snoc. simpl.
      destruct (id =? j) eqn:E.
      * apply N.eqb_eq in E. subst j. rewrite first_order_snoc, <- H4.
        apply H5 in Hcg. destruct (decide (g ∈ list_at st id)); [reflexivity | contradiction].
      * rewrite app_nil_r. apply H4.
    + intros j Hj. rewrite authorizations_snoc. simpl.
      assert (E : id <> j) by lia. apply N.eqb_neq in E. rewrite E, app_nil_r.
      apply H8, Hj.
  - assert (Hnew : g ∉ list_at st id).
    { intros H. apply H5 in H. congruence. }
    split; simpl; try assumption.
    + rewrite created_ids_snoc, app_nil_r. exact H3.
    + intros j. rewrite list_at_insert, authorizations_snoc. simpl.
      destruct (decide (id = j)) as [<-|Hne].
      * rewrite N.eqb_refl, first_order_snoc, <- H4.
        destruct (decide (g ∈ list_at st id)); [contradiction | reflexivity].
      * fold (list_at st j). apply N.eqb_neq in Hne. rewrite Hne, app_nil_r. apply H4.
    + intros j a. rewrite collab_at_insert, list_at_insert.
      destruct (decide (id = j)) as [<-|Hne].
      * rewrite elem_of_app, list_elem_of_singleton, <- H5.
        destruct (decide ((id, g) = (id, a))) as [[= <-]|Hne].
        -- split; auto.
        -- fold (collab_at st id a). split; [auto | intros [H| ->]; [exact H | contradiction]].
      * destruct (decide ((id, g) = (j, a))) as [[= ? ?]|_]; [contradiction|].
        fold (collab_at st j a) (list_at st j). apply H5.
    + intros j Hj. rewrite list_at_insert.
      destruct (decide (id = j)) as [<-|Hne].
      * apply elem_of_app. left. apply H6, Hj.
      * fold (list_at st j). apply H6, Hj.
    + intros j. rewrite list_at_insert.
      destruct (decide (id = j)) as [<-|Hne].
      * rewrite elem_of_app, list_elem_of_singleton. intros [H| H]; [exact (H7 _ H) | congruence].
      * fold (list_at st j). apply H7.
    + intros j Hj. rewrite authorizations_snoc. simpl.
      assert (E : id <> j) by lia. apply N.eqb_neq in E. rewrite E, app_nil_r.
      apply H8, Hj.
Qed.

Lemma Inv_updateDocumentBody e id b st u st' :
  Inv st -> updateDocumentBody e id b st = inr (u, st') -> Inv st'.
Proof.
  intros [H1 H2 H3 H4 H5 H6 H7 H8] Hc.
  apply updateDocumentBody_inr in Hc as (Hex & _ & ->).
  assert (Hown : forall j,
    owner (doc_at (mkState (_documentCount st)
      (<[id := mkDocument (name (doc_at st id)) b (encryptedSecret (doc_at st id))
                          (owner (doc_at st id)) (timestamp e)]> (_documents st))
      (_collaborators st) (_collaboratorList st)
      (events st ++ [DocumentUpdated id (sender e) b])
      (allow (encryptedSecret (doc_at st id)) (sender e) (fhe st))) j)
    = owner (doc_at st j)).
  { intros j. rewrite doc_at_insert. destruct (decide (id = j)) as [<-|_]; reflexivity. }
  split; simpl; try assumption.
  - intros j. rewrite Hown. apply H1.
  - rewrite created_ids_snoc, app_nil_r. exact H3.
  - intros j. rewrite authorizations_snoc. simpl. rewrite app_nil_r. apply H4.
  - intros j. rewrite Hown. apply H6.
  - intros j Hj. rewrite authorizations_snoc. simpl. rewrite app_nil_r. apply H8, Hj.
Qed.

Lemma reachable_Inv st : reachable st -> Inv st.
Proof.
  induction 1 as [a0 | st e c st' _ IH Hs Hx | st a0 _ IH].
  - apply Inv_initial.
  - destruct c as [n s p | i g | i b]; simpl in Hx.
    + destruct (createDocument e n s p st) as [|[i st1]] eqn:E; [discriminate|].
      injection Hx as <-. eapply Inv_createDocument; eauto.
    + destruct (grantAccess e i g st) as [|[u st1]] eqn:E; [discriminate|].
      injection Hx as <-. eapply Inv_grantAccess; eauto.
    + destruct (updateDocumentBody e i b st) as [|[u st1]] eqn:E; [discriminate|].
      injection Hx as <-. eapply Inv_updateDocumentBody; eauto.
  - apply Inv_with_fhe, IH.
Qed.

Lemma reachable_run (cs : list (Env * Call)) st :
  reachable st -> Forall (fun ec => sender (fst ec) <> address0) cs ->
  reachable (run cs st).
Proof.
  revert st. induction cs as [|[e c] cs IH]; intros st Hr Hs; simpl; [exact Hr|].
  inversion Hs as [|? ? He Hcs]; subst. simpl in He.
  destruct (exec e c st) as [err|st1] eqn:E.
  - apply IH; assumption.
  - apply IH; [|assumption]. eapply reachable_call; eauto.
Qed.

Lemma createDocument_returns e n s p st (secret : euint64) (a1 : acl) :
  n <> ""%string -> _documentCount st < MAX_UINT256 ->
  fromExternal s p (sender e) (fhe st) = Some (secret, a1) ->
  exists st', createDocument e n s p st = inr (_documentCount st + 1, st').
Proof.
  intros Hn Hlt Hf. unfold createDocument.
  destruct n as [|c n]; [contradiction|]. simpl String.length. cbn [Nat.eqb].
  rewrite Hf.
  assert (E : _documentCount st <> MAX_UINT256) by lia.
  apply N.eqb_neq in E. rewrite E. eexists. reflexivity.
Qed.

Lemma updateDocumentBody_allowed e id body st d :
  getDocument id st = inr d ->
  isAllowed (encryptedSecret d) (sender e) (fhe st) = true ->
  updateDocumentBody e id body st
  = inr (tt, mkState (_documentCount st)
          (<[id := mkDocument (name d) body (encryptedSecret d) (owner d) (timestamp e)]>
             (_documents st))
          (_collaborators st) (_collaboratorList st)
          (events st ++ [DocumentUpdated id (sender e) body])
          (allow (encryptedSecret d) (sender e) (fhe st))).
Proof.
  intros Hd Ha. apply getDocument_inr in Hd as [-> Hex].
  apply N.eqb_neq in Hex. unfold updateDocumentBody. rewrite Hex, Ha. reflexivity.
Qed.

Lemma getDocument_updated c m k l ev f id d :
  owner d <> address0 ->
  getDocument id (mkState c (<[id := d]> m) k l ev f) = inr d.
Proof.
  intros Hd. apply getDocument_inr. rewrite doc_at_insert.
  destruct (decide (id = id)) as [_|Hne]; [|contradiction]. auto.
Qed.

(** ** The properties the specification states *)

(** C1. For an existing document, [updateDocumentBody] is decided by the
    external authority alone, whatever the ledger's own collaborator set
    holds: it reverts with [Unauthorized] when the authority does not allow
    the sender on the document's handle; when it does, the call succeeds,
    the stored body is the given ciphertext as it came, [updatedAt] is the
    block time, the other fields are kept, and the sender's authorization
    is asserted again. *)
Theorem updateDocumentBody_delegated e id body st d :
  getDocument id st = inr d ->
  (isAllowed (encryptedSecret d) (sender e) (fhe st) = false ->
     updateDocumentBody e id body st = inl (Unauthorized (sender e))) /\
  (isAllowed (encryptedSecret d) (sender e) (fhe st) = true ->
     exists st',
       updateDocumentBody e id body st = inr (tt, st') /\
       getDocument id st'
       = inr (mkDocument (name d) body (encryptedSecret d) (owner d) (timestamp e)) /\
       fhe st' = allow (encryptedSecret d) (sender e) (fhe st)).
Proof.
  intros Hd. split; intros Ha.
  - apply getDocument_inr in Hd as [-> Hex]. apply N.eqb_neq in Hex.
    unfold updateDocumentBody. rewrite Hex, Ha. reflexivity.
  - eexists. split; [apply updateDocumentBody_allowed; eassumption|].
    split; [|reflexivity].
    apply getDocument_updated. simpl. apply getDocument_inr in Hd as [-> Hex]. exact Hex.
Qed.

(** C4. In every reachable state the existing documents are exactly those
    numbered 1 to [documentCount], the identifiers the log records as
    created are 1, 2, ..., [documentCount] in that order, and a
    [createDocument] that returns gives [documentCount + 1] and makes it the
    new count; it does return whenever the name is not empty, the
    authority accepts the encrypted input for the sender and the counter
    is below its largest value. *)
Theorem document_ids_dense st :
  reachable st ->
  (forall id, (exists d, getDocument id st = inr d) <-> 1 <= id <= documentCount st) /\
  created_ids (events st) = ids_upto (documentCount st) /\
  (forall e n s p id st',
     createDocument e n s p st = inr (id, st') ->
     id = documentCount st + 1 /\ documentCount st' = id) /\
  (forall e n s p (h : euint64) (a1 : acl),
     n <> ""%string -> documentCount st < MAX_UINT256 ->
     fromExternal s p (sender e) (fhe st) = Some (h, a1) ->
     exists st', createDocument e n s p st = inr (documentCount st + 1, st')).
Proof.
  intros Hr. apply reachable_Inv in Hr as [H1 H2 H3 _ _ _ _ _].
  unfold documentCount. split; [|split; [|split]].
  - intros id. split.
    + intros [d Hd]. apply getDocument_inr in Hd as [_ Hd]. apply H1, Hd.
    + intros Hid. exists (doc_at st id). apply getDocument_inr. split; [reflexivity|].
      apply H1. exact Hid.
  - exact H3.
  - intros e n s p id st' H.
    apply createDocument_inr in H as (_ & _ & -> & secret & a1 & _ & ->).
    split; reflexivity.
  - intros e n s p h a1 Hn Hlt Hf. eapply createDocument_returns; eassumption.
Qed.

(** C5. In every reachable state, for every existing document: the owner
    is authorized and is in the collaborator list; an identity is
    authorized exactly when it is in the list; the list has no duplicate;
    and the list is the sequence of the identities the log records as
    authorized for the document (the creator, then each grantee), each kept
    at its first occurrence. *)
Theorem collaborators_consistent st id d :
  reachable st -> getDocument id st = inr d ->
  isAuthorized id (owner d) st = inr true /\
  exists l,
    getCollaborators id st = inr l /\
    owner d ∈ l /\
    (forall a, isAuthorized id a st = inr true <-> a ∈ l) /\
    NoDup l /\
    l = first_order (authorizations id (events st)).
Proof.
  intros Hr Hd. apply reachable_Inv in Hr as [_ _ _ H4 H5 H6 _ _].
  apply getDocument_inr in Hd as [-> Hex].
  pose proof Hex as Hex'. apply N.eqb_neq in Hex'.
  unfold isAuthorized, getCollaborators. rewrite Hex'. split.
  - f_equal. apply H5, H6, Hex.
  - exists (list_at st id). split; [reflexivity|]. split; [apply H6, Hex|].
    split; [|split].
    + intros a. rewrite <- H5. split; [intros [= ->]; reflexivity | intros ->; reflexivity].
    + rewrite H4. apply first_order_NoDup.
    + apply H4.
Qed.

(** C6. On an existing document, [grantAccess] by anyone but the owner
    reverts with [NotDocumentOwner], whether or not the sender is an
    authorized collaborator. *)
Theorem grantAccess_not_owner e id grantee st d :
  getDocument id st = inr d -> sender e <> owner d ->
  grantAccess e id grantee st = inl (NotDocumentOwner (sender e)).
Proof.
  intros Hd Hne. apply getDocument_inr in Hd as [-> Hex].
  unfold grantAccess. apply N.eqb_neq in Hex. rewrite Hex.
  assert (E : (owner (doc_at st id) =? sender e) = false) by (apply N.eqb_neq; congruence).
  rewrite E. reflexivity.
Qed.

(** C7. In a reachable state, when the owner grants access to an identity
    that is already authorized, the call succeeds, every collaborator list
    and every authorization flag is as before, and the authority is asked
    again to allow the grantee on the document's handle. *)
Theorem grantAccess_idempotent e id grantee st d :
  reachable st -> getDocument id st = inr d -> sender e = owner d ->
  isAuthorized id grantee st = inr true ->
  exists st',
    grantAccess e id grantee st = inr (tt, st') /\
    (forall i, getCollaborators i st' = getCollaborators i st) /\
    (forall i a, isAuthorized i a st' = isAuthorized i a st) /\
    fhe st' = allow (encryptedSecret d) grantee (fhe st).
Proof.
  intros Hr Hd Hs Ha. apply reachable_Inv in Hr as [_ _ _ _ H5 _ H7 _].
  apply getDocument_inr in Hd as [-> Hex].
  pose proof Hex as Hex'. apply N.eqb_neq in Hex'.
  unfold isAuthorized in Ha. rewrite Hex' in Ha. injection Ha as Ha.
  assert (Hg : grantee <> address0).
  { intros ->. apply H5 in Ha. exact (H7 _ Ha). }
  unfold grantAccess. rewrite Hex', Hs, N.eqb_refl. simpl.
  apply N.eqb_neq in Hg. rewrite Hg, Ha. simpl.
  eexists. split; [reflexivity|]. repeat split.
Qed.

(** C8. [createDocument] reverts with [EmptyName] exactly when the name is
    the empty string. For a name that is not empty the call fails with
    [InputRejected] when the authority refuses the encrypted input; when
    the authority accepts it, in a reachable state whose counter is below
    its largest value, the call returns an identifier under which no
    document existed, stores there a document of that name with an empty
    body, owned by the sender, and leaves every other document as it was:
    an earlier document of the same name is no obstacle. *)
Theorem createDocument_EmptyName e n s p st :
  (createDocument e n s p st = inl EmptyName <-> n = ""%string) /\
  (n <> ""%string -> fromExternal s p (sender e) (fhe st) = None ->
   createDocument e n s p st = inl InputRejected) /\
  (forall (h : euint64) (a1 : acl),
     n <> ""%string -> fromExternal s p (sender e) (fhe st) = Some (h, a1) ->
     reachable st -> documentCount st < MAX_UINT256 -> sender e <> address0 ->
     exists id st',
       createDocument e n s p st = inr (id, st') /\
       getDocument id st = inl (DocumentNotFound id) /\
       getDocument id st' = inr (mkDocument n "" h (sender e) (timestamp e)) /\
       documentCount st' = documentCount st + 1 /\
       (forall j, j <> id -> getDocument j st' = getDocument j st)).
Proof.
  split; [|split].
  - unfold createDocument. destruct n as [|c n]; simpl String.length; cbn [Nat.eqb].
    + split; reflexivity.
    + destruct (fromExternal s p (sender e) (fhe st)) as [[secret a1]|];
        [|split; discriminate].
      destruct (_documentCount st =? MAX_UINT256); split; discriminate.
  - intros Hn Hf. unfold createDocument.
    destruct n as [|c n]; [contradiction|]. simpl String.length. cbn [Nat.eqb].
    rewrite Hf. reflexivity.
  - intros h a1 Hn Hf Hr Hlt Hs. unfold documentCount in *.
    destruct (createDocument_returns e n s p st h a1 Hn Hlt Hf) as [st' Hc].
    apply reachable_Inv in Hr as [H1 _ _ _ _ _ _ _].
    exists (_documentCount st + 1), st'.
    split; [exact Hc|].
    apply createDocument_inr in Hc as (_ & _ & _ & secret & a2 & Hf' & ->).
    rewrite Hf in Hf'. injection Hf' as <- <-. simpl.
    split; [|split; [|split; [reflexivity|]]].
    + apply getDocument_inl. split; [reflexivity|].
      destruct (N.eq_dec (owner (doc_at st (_documentCount st + 1))) address0) as [E|E];
        [exact E|]. apply H1 in E. lia.
    + apply getDocument_inr. rewrite doc_at_insert.
      destruct (decide (_documentCount st + 1 = _documentCount st + 1)); [|contradiction].
      simpl. auto.
    + intros j Hj. unfold getDocument. rewrite doc_at_insert.
      destruct (decide (_documentCount st + 1 = j)); [congruence|]. reflexivity.
Qed.

(** C10. An [updateDocumentBody] that the authority lets through succeeds
    and leaves the ledger's own access state alone: [isAuthorized] and
    [getCollaborators] answer as before for every document and identity. So
    a sender the authority allows but the ledger's set does not hold
    commits a body, and [isAuthorized] still answers false for it. *)
Theorem updateDocumentBody_frame e id body st d :
  getDocument id st = inr d ->
  isAllowed (encryptedSecret d) (sender e) (fhe st) = true ->
  exists st',
    updateDocumentBody e id body st = inr (tt, st') /\
    (forall i a, isAuthorized i a st' = isAuthorized i a st) /\
    (forall i, getCollaborators i st' = getCollaborators i st) /\
    (isAuthorized id (sender e) st = inr false ->
     isAuthorized id (sender e) st' = inr false /\
     exists d', getDocument id st' = inr d' /\ encryptedBody d' = body).
Proof.
  intros Hd Ha.
  pose proof (updateDocumentBody_allowed e id body st d Hd Ha) as Hu.
  eexists. split; [exact Hu|].
  assert (Hg : getDocument id
      (mkState (_documentCount st)
        (<[id := mkDocument (name d) body (encryptedSecret d) (owner d) (timestamp e)]>
           (_documents st))
        (_collaborators st) (_collaboratorList st)
        (events st ++ [DocumentUpdated id (sender e) body])
        (allow (encryptedSecret d) (sender e) (fhe st)))
      = inr (mkDocument (name d) body (encryptedSecret d) (owner d) (timestamp e))).
  { apply getDocument_updated. simpl. apply getDocument_inr in Hd as [-> Hex]. exact Hex. }
  apply getDocument_inr in Hd as [-> Hex].
  assert (Hown : forall i a0, isAuthorized i a0
      (mkState (_documentCount st)
        (<[id := mkDocument (name (doc_at st id)) body (encryptedSecret (doc_at st id))
                            (owner (doc_at st id)) (timestamp e)]> (_documents st))
        (_collaborators st) (_collaboratorList st)
        (events st ++ [DocumentUpdated id (sender e) body])
        (allow (encryptedSecret (doc_at st id)) (sender e) (fhe st)))
      = isAuthorized i a0 st).
  { intros i a0. unfold isAuthorized. rewrite doc_at_insert.
    destruct (decide (id = i)) as [<-|_]; reflexivity. }
  split; [exact Hown|]. split.
  - intros i. unfold getCollaborators. rewrite doc_at_insert.
    destruct (decide (id = i)) as [<-|_]; reflexivity.
  - intros Hf. rewrite Hown. split; [exact Hf|]. eexists. split; [exact Hg|]. reflexivity.
Qed.

(** With a lawful authority, a grant by the owner opens the write to the
    grantee: once [grantAccess] has returned, the grantee's
    [updateDocumentBody] succeeds and the body read back is the ciphertext
    it sent. *)
Lemma updateDocumentBody_after_grant {L : ConfidentialValueStoreLaws CVS}
    e e' id grantee body st st1 d :
  getDocument id st = inr d ->
  grantAccess e id grantee st = inr (tt, st1) ->
  sender e' = grantee ->
  exists st2 d2,
    updateDocumentBody e' id body st1 = inr (tt, st2) /\
    getDocument id st2 = inr d2 /\ encryptedBody d2 = body.
Proof.
  intros Hd Hg Hs. apply grantAccess_inr in Hg as (Hex & _ & _ & ->).
  apply getDocument_inr in Hd as [-> _].
  set (st1 := mkState _ _ _ _ _ _).
  assert (Hd1 : getDocument id st1 = inr (doc_at st id)).
  { apply getDocument_inr. split; [reflexivity | exact Hex]. }
  assert (Ha : isAllowed (encryptedSecret (doc_at st id)) (sender e') (fhe st1) = true).
  { subst grantee. apply isAllowed_allow. }
  eexists.
  exists (mkDocument (name (doc_at st id)) body (encryptedSecret (doc_at st id))
            (owner (doc_at st id)) (timestamp e')).
  split; [apply (updateDocumentBody_allowed e' id body st1 _ Hd1 Ha)|].
  split; [|reflexivity]. apply getDocument_updated. exact Hex.
Qed.

End Facts.
End VaultFacts.

(** ** The properties at work on the small run *)

Module VaultExamples.
Import Vault Scenario Scenario2 VaultFacts.
#[local] Existing Instance MapStore.store.

Lemma created_reachable : reachable created.
Proof.
  apply reachable_run; [apply reachable_initial|].
  repeat constructor; discriminate.
Qed.

Lemma shared_reachable : reachable shared.
Proof.
  apply reachable_run; [apply created_reachable|].
  repeat constructor; discriminate.
Qed.

Lemma sequel_signed : Forall (fun ec => sender (fst ec) <> address0) sequel.
Proof. repeat constructor; discriminate. Qed.

Lemma written_reachable : reachable written.
Proof. apply reachable_run; [apply shared_reachable | apply sequel_signed]. Qed.

Lemma MapStore_laws : ConfidentialValueStoreLaws MapStore.store.
Proof.
  split; simpl. intros h a s. apply bool_decide_eq_true. set_solver.
Qed.

(** The name is tested for length only: a name of one space is blank,
    and it is taken; the call does not fail with [EmptyName], it stores
    document 2 under that name. *)
Lemma createDocument_space_name :
  VaultSpec.isBlank " " = true /\
  createDocument (by_ alice 500) " " 7 "proof" created <> inl EmptyName /\
  exists st',
    createDocument (by_ alice 500) " " 7 "proof" created = inr (2, st') /\
    getDocument 2 st' = inr (mkDocument " " "" 2 alice 500) /\
    documentCount st' = 2.
Proof.
  split; [reflexivity|]. split; [discriminate|].
  eexists. split; [reflexivity|]. split; reflexivity.
Qed.

(** A name that is not blank creates nothing when the authority refuses
    the encrypted input: the call reverts and the ledger stays as it
    was. *)
Example createDocument_refused_input :
  VaultSpec.isBlank "Doc Two" = false /\
  createDocument (by_ alice 500) "Doc Two" 7 "" created = inl InputRejected /\
  run [(by_ alice 500, CreateDocument "Doc Two" 7 "")] created = created.
Proof. split; [reflexivity|]. split; reflexivity. Qed.

(** The scenario of the contract's test: Bob's write is refused, Alice
    grants him access, the same write goes through. *)
Example bob_writes_after_grant :
  updateDocumentBody (by_ bob 300) 1 "ciphertext" created = inl (Unauthorized bob) /\
  exists st2 d2,
    updateDocumentBody (by_ bob 300) 1 "ciphertext" shared = inr (tt, st2) /\
    getDocument 1 st2 = inr d2 /\ encryptedBody d2 = "ciphertext"%string.
Proof.
  split; [reflexivity|].
  destruct (grantAccess (by_ alice 200) 1 bob created) as [|[[] st1]] eqn:E;
    [discriminate|].
  assert (Hs : shared = st1) by (unfold shared; simpl; rewrite E; reflexivity).
  rewrite Hs.
  apply (updateDocumentBody_after_grant (L := MapStore_laws)
           (by_ alice 200) (by_ bob 300) 1 bob "ciphertext" created st1 doc1);
    [reflexivity | exact E | reflexivity].
Qed.

(** Bob is in the ledger's collaborator set, yet his write is refused once
    the authority no longer allows him. *)
Example collaborator_refused_by_authority :
  isAuthorized 1 bob revoked = inr true /\
  updateDocumentBody (by_ bob 700) 1 "ciphertext" revoked = inl (Unauthorized bob).
Proof. split; reflexivity. Qed.

Lemma drifted_reachable : reachable drifted.
Proof. apply reachable_external, shared_reachable. Qed.

(** Bob is turned away before the grant and let through after it. *)
Lemma updateDocumentBody_delegated_witness :
  getDocument 1 created = inr doc1 /\
  getDocument 1 shared = inr doc1 /\
  updateDocumentBody (by_ bob 300) 1 "ciphertext" created = inl (Unauthorized bob) /\
  exists st',
    updateDocumentBody (by_ bob 300) 1 "ciphertext" shared = inr (tt, st') /\
    getDocument 1 st' = inr (mkDocument "Doc One" "ciphertext" 1 alice 300) /\
    fhe st' = allow 1 bob (fhe shared).
Proof.
  assert (H1 : getDocument 1 created = inr doc1) by reflexivity.
  assert (H2 : getDocument 1 shared = inr doc1) by reflexivity.
  split; [exact H1|]. split; [exact H2|]. split.
  - apply (proj1 (updateDocumentBody_delegated (by_ bob 300) 1 "ciphertext" created doc1 H1)).
    reflexivity.
  - apply (proj2 (updateDocumentBody_delegated (by_ bob 300) 1 "ciphertext" shared doc1 H2)).
    reflexivity.
Defined.

(** After the five transactions of the scenario the ledger holds the
    documents 1 and 2, created in that order, and the next one is 3. *)
Lemma document_ids_dense_witness :
  reachable written /\
  documentCount written = 2 /\
  (forall id, (exists d, getDocument id written = inr d) <-> 1 <= id <= 2) /\
  created_ids (events written) = [1; 2] /\
  (forall e n s p id st',
     createDocument e n s p written = inr (id, st') ->
     id = 3 /\ documentCount st' = id) /\
  "Third"%string <> ""%string /\ documentCount written < MAX_UINT256 /\
  fromExternal 5 "proof" (sender (by_ bob 600)) (fhe written)
  = Some (3, allowed_after_third) /\
  exists st', createDocument (by_ bob 600) "Third" 5 "proof" written = inr (3, st').
Proof.
  pose proof (document_ids_dense written written_reachable) as (H1 & H2 & H3 & H4).
  assert (Hn : "Third"%string <> ""%string) by discriminate.
  assert (Hlt : documentCount written < MAX_UINT256) by reflexivity.
  assert (Hf : fromExternal 5 "proof" (sender (by_ bob 600)) (fhe written)
               = Some (3, allowed_after_third)) by reflexivity.
  split; [exact written_reachable|]. split; [reflexivity|].
  split; [exact H1|]. split; [exact H2|]. split; [exact H3|].
  split; [exact Hn|]. split; [exact Hlt|]. split; [exact Hf|].
  exact (H4 (by_ bob 600) "Third"%string 5 "proof"%string 3 allowed_after_third Hn Hlt Hf).
Defined.

Lemma collaborators_consistent_witness :
  reachable shared /\ getDocument 1 shared = inr doc1 /\
  isAuthorized 1 (owner doc1) shared = inr true /\
  exists l,
    getCollaborators 1 shared = inr l /\
    owner doc1 ∈ l /\
    (forall a, isAuthorized 1 a shared = inr true <-> a ∈ l) /\
    NoDup l /\
    l = first_order (authorizations 1 (events shared)).
Proof.
  assert (H : getDocument 1 shared = inr doc1) by reflexivity.
  split; [exact shared_reachable|]. split; [exact H|].
  exact (collaborators_consistent shared 1 doc1 shared_reachable H).
Defined.

(** Bob is an authorized collaborator of document 1 and still may not
    grant. *)
Lemma grantAccess_not_owner_witness :
  getDocument 1 shared = inr doc1 /\ sender (by_ bob 400) <> owner doc1 /\
  isAuthorized 1 bob shared = inr true /\
  grantAccess (by_ bob 400) 1 carol shared = inl (NotDocumentOwner bob).
Proof.
  assert (H : getDocument 1 shared = inr doc1) by reflexivity.
  assert (Hne : sender (by_ bob 400) <> owner doc1) by discriminate.
  split; [exact H|]. split; [exact Hne|]. split; [reflexivity|].
  exact (grantAccess_not_owner (by_ bob 400) 1 carol shared doc1 H Hne).
Defined.

Lemma grantAccess_idempotent_witness :
  reachable shared /\ getDocument 1 shared = inr doc1 /\
  sender (by_ alice 400) = owner doc1 /\
  isAuthorized 1 bob shared = inr true /\
  exists st',
    grantAccess (by_ alice 400) 1 bob shared = inr (tt, st') /\
    (forall i, getCollaborators i st' = getCollaborators i shared) /\
    (forall i a, isAuthorized i a st' = isAuthorized i a shared) /\
    fhe st' = allow (encryptedSecret doc1) bob (fhe shared).
Proof.
  assert (H : getDocument 1 shared = inr doc1) by reflexivity.
  assert (Ha : isAuthorized 1 bob shared = inr true) by reflexivity.
  split; [exact shared_reachable|]. split; [exact H|]. split; [reflexivity|].
  split; [exact Ha|].
  exact (grantAccess_idempotent (by_ alice 400) 1 bob shared doc1
           shared_reachable H eq_refl Ha).
Defined.

(** A second document of the same name gets the next identifier. *)
Lemma createDocument_EmptyName_witness :
  "Doc One"%string <> ""%string /\
  fromExternal 7 "proof" (sender (by_ alice 500)) (fhe created)
  = Some (2, allowed_after_second) /\
  reachable created /\
  documentCount created < MAX_UINT256 /\ sender (by_ alice 500) <> address0 /\
  exists id st',
    createDocument (by_ alice 500) "Doc One" 7 "proof" created = inr (id, st') /\
    getDocument id created = inl (DocumentNotFound id) /\
    getDocument id st' = inr (mkDocument "Doc One" "" 2 alice 500) /\
    documentCount st' = documentCount created + 1 /\
    (forall j, j <> id -> getDocument j st' = getDocument j created).
Proof.
  assert (Hn : "Doc One"%string <> ""%string) by discriminate.
  assert (Hf : fromExternal 7 "proof" (sender (by_ alice 500)) (fhe created)
               = Some (2, allowed_after_second)) by reflexivity.
  assert (Hlt : documentCount created < MAX_UINT256) by reflexivity.
  assert (Hs : sender (by_ alice 500) <> address0) by discriminate.
  split; [exact Hn|]. split; [exact Hf|]. split; [exact created_reachable|].
  split; [exact Hlt|]. split; [exact Hs|].
  exact (proj2 (proj2 (createDocument_EmptyName (by_ alice 500) "Doc One" 7 "proof" created))
           2 allowed_after_second Hn Hf created_reachable Hlt Hs).
Defined.

(** Carol, allowed by the authority only, writes the body of document 1;
    the ledger still does not count her as authorized. *)
Lemma updateDocumentBody_frame_witness :
  getDocument 1 drifted = inr doc1 /\
  isAllowed (encryptedSecret doc1) (sender (by_ carol 600)) (fhe drifted) = true /\
  isAuthorized 1 carol drifted = inr false /\
  exists st',
    updateDocumentBody (by_ carol 600) 1 "ciphertext" drifted = inr (tt, st') /\
    isAuthorized 1 carol st' = inr false /\
    exists d', getDocument 1 st' = inr d' /\ encryptedBody d' = "ciphertext"%string.
Proof.
  assert (H : getDocument 1 drifted = inr doc1) by reflexivity.
  assert (Ha : isAllowed (encryptedSecret doc1) (sender (by_ carol 600)) (fhe drifted) = true)
    by reflexivity.
  assert (Hf : isAuthorized 1 carol drifted = inr false) by reflexivity.
  split; [exact H|]. split; [exact Ha|]. split; [exact Hf|].
  destruct (updateDocumentBody_frame (by_ carol 600) 1 "ciphertext" drifted doc1 H Ha)
    as (st' & Hu & _ & _ & Hc).
  exists st'. split; [exact Hu|]. exact (Hc Hf).
Defined.

End VaultExamples.

(** * Properties of the codec *)

Module CodecFacts.
Import Codec.
Local Open Scope Z_scope.

(** ** Hexadecimal text *)

(** Every byte is written as two code units, neither a line terminator
    nor a colon, that [parseInt] reads back as the byte. *)
Lemma hex_of_byte (b : byte) :
  exists h l,
    padStart 2 48 (toString16 (byte_to_Z b)) = [h; l] /\
    isLineTerminator h = false /\ isLineTerminator l = false /\
    (h =? COLON) = false /\ (l =? COLON) = false /\
    toUint8 (parseInt16 [h; l]) = b.
Proof.
  destruct b; do 2 eexists; (split; [reflexivity|]); repeat split.
Qed.

Lemma toHex_cons (b : byte) (bs : bytes) :
  toHex (b :: bs) = padStart 2 48 (toString16 (byte_to_Z b)) ++ toHex bs.
Proof. reflexivity. Qed.

Lemma toHex_length (bs : bytes) : length (toHex bs) = (2 * length bs)%nat.
Proof.
  induction bs as [|b bs IH]; [reflexivity|].
  rewrite toHex_cons. destruct (hex_of_byte b) as (h & l & -> & _).
  simpl. rewrite IH. lia.
Qed.

Lemma match_pairs_toHex (bs : bytes) :
  map (fun byte => toUint8 (parseInt16 byte)) (match_pairs (toHex bs)) = bs.
Proof.
  induction bs as [|b bs IH]; [reflexivity|].
  rewrite toHex_cons. destruct (hex_of_byte b) as (h & l & -> & Hh & Hl & _ & _ & Hb).
  change ([h; l] ++ toHex bs) with (h :: l :: toHex bs).
  cbn [match_pairs]. rewrite Hh, Hl. cbn [map]. rewrite Hb, IH. reflexivity.
Qed.

Lemma fromHex_toHex (bs : bytes) : fromHex (toHex bs) = inr bs.
Proof.
  unfold fromHex. rewrite toHex_length.
  replace (Z.of_nat (2 * length bs) mod 2 =? 0) with true.
  - simpl. rewrite match_pairs_toHex. reflexivity.
  - symmetry. apply Z.eqb_eq. rewrite Nat2Z.inj_mul, Z.mul_comm. apply Z.mod_mul. lia.
Qed.

Lemma split_no_colon (s : jsstring) :
  forallb (fun c => negb (c =? COLON)) s = true -> split COLON s = [s].
Proof.
  induction s as [|c s IH]; [reflexivity|]. simpl.
  intros H. apply andb_true_iff in H as [Hc Hs]. apply negb_true_iff in Hc.
  rewrite Hc, (IH Hs). reflexivity.
Qed.

Lemma split_at_colon (s t : jsstring) :
  forallb (fun c => negb (c =? COLON)) s = true ->
  split COLON (s ++ COLON :: t) = s :: split COLON t.
Proof.
  induction s as [|c s IH]; intros H.
  - simpl. reflexivity.
  - simpl in H. apply andb_true_iff in H as [Hc Hs]. apply negb_true_iff in Hc.
    simpl. rewrite Hc, (IH Hs). reflexivity.
Qed.

Lemma toHex_no_colon (bs : bytes) :
  forallb (fun c => negb (c =? COLON)) (toHex bs) = true.
Proof.
  induction bs as [|b bs IH]; [reflexivity|].
  rewrite toHex_cons. destruct (hex_of_byte b) as (h & l & -> & _ & _ & Hh & Hl & _).
  simpl. rewrite Hh, Hl, IH. reflexivity.
Qed.

Lemma toHex_nonempty (bs : bytes) : bs <> [] -> toHex bs <> [].
Proof.
  intros Hbs H. apply (f_equal (@length Z)) in H. rewrite toHex_length in H.
  destruct bs; [contradiction | simpl in H; lia].
Qed.

(** ** UTF-8 and UTF-16 *)

Lemma byte_to_of_Z z : 0 <= z < 256 -> byte_to_Z (byte_of_Z z) = z.
Proof.
  intros Hz. unfold byte_to_Z, byte_of_Z.
  rewrite Z.mod_small by lia.
  destruct (Byte.of_N (Z.to_N z)) as [b|] eqn:E.
  - simpl. apply Byte.to_of_N in E. rewrite E. lia.
  - apply Byte.of_N_None_iff in E. lia.
Qed.

Ltac ztest :=
  repeat match goal with
  | |- context [?a <=? ?b] =>
      first [ replace (a <=? b) with true by (symmetry; apply Z.leb_le; lia)
            | replace (a <=? b) with false by (symmetry; apply Z.leb_gt; lia) ]
  | |- context [?a <? ?b] =>
      first [ replace (a <? b) with true by (symmetry; apply Z.ltb_lt; lia)
            | replace (a <? b) with false by (symmetry; apply Z.ltb_ge; lia) ]
  | |- context [?a =? ?b] =>
      first [ replace (a =? b) with true by (symmetry; apply Z.eqb_eq; lia)
            | replace (a =? b) with false by (symmetry; apply Z.eqb_neq; lia) ]
  end.

Lemma utf8_decode_encode_cp cp rest :
  scalar cp ->
  utf8_decode utf8_init (utf8_encode_cp cp ++ rest) = cp :: utf8_decode utf8_init rest.
Proof.
  intros Hs. unfold utf8_encode_cp.
  destruct (Z.ltb_spec cp 128) as [H1|H1].
  - assert (0 <= cp) by (destruct Hs; lia).
    simpl. unfold utf8_step, utf8_lead. simpl. ztest. reflexivity.
  - destruct (Z.ltb_spec cp 2048) as [H2|H2].
    + pose proof (Z.div_mod cp 64 ltac:(lia)) as Hdm.
      pose proof (Z.mod_pos_bound cp 64 ltac:(lia)) as Hr.
      set (q := cp / 64) in *. set (r := cp mod 64) in *.
      assert (Hq : 2 <= q < 32) by lia.
      simpl. unfold utf8_step at 1, utf8_lead. simpl. ztest. simpl.
      unfold utf8_step at 1. simpl. ztest. simpl.
      replace ((192 + q) mod 32) with q by (apply (Z.mod_unique _ _ 6); lia).
      replace ((128 + r) mod 64) with r by (apply (Z.mod_unique _ _ 2); lia).
      f_equal. lia.
    + destruct (Z.ltb_spec cp 65536) as [H3|H3].
      * pose proof (Z.div_mod cp 64 ltac:(lia)) as Hdm.
        pose proof (Z.mod_pos_bound cp 64 ltac:(lia)) as Hr.
        pose proof (Z.div_mod (cp / 64) 64 ltac:(lia)) as Hdm2.
        pose proof (Z.mod_pos_bound (cp / 64) 64 ltac:(lia)) as Hr2.
        replace (cp / 4096) with (cp / 64 / 64) by (rewrite Z.div_div by lia; reflexivity).
        set (r := cp mod 64) in *. set (r2 := cp / 64 mod 64) in *.
        set (q := cp / 64 / 64) in *. clearbody q r r2.
        assert (Hq : 0 <= q < 16) by lia.
        simpl. unfold utf8_step at 1, utf8_lead. simpl. ztest. simpl.
        replace ((224 + q) mod 16) with q by (apply (Z.mod_unique _ _ 14); lia).
        assert (Hlo : (if 224 + q =? 224 then 160 else 128) <= 128 + r2).
        { destruct (Z.eqb_spec (224 + q) 224); lia. }
        assert (Hhi : 128 + r2 <= (if 224 + q =? 237 then 159 else 191)).
        { destruct (Z.eqb_spec (224 + q) 237); destruct Hs; lia. }
        unfold utf8_step at 1. cbn [bytesNeeded lowerBoundary upperBoundary codePoint bytesSeen].
        apply Z.leb_le in Hlo, Hhi. rewrite Hlo, Hhi. simpl.
        replace ((128 + r2) mod 64) with r2 by (apply (Z.mod_unique _ _ 2); lia).
        unfold utf8_step at 1. simpl. ztest. simpl.
        replace ((128 + r) mod 64) with r by (apply (Z.mod_unique _ _ 2); lia).
        f_equal. lia.
      * pose proof (Z.div_mod cp 64 ltac:(lia)) as Hdm.
        pose proof (Z.mod_pos_bound cp 64 ltac:(lia)) as Hr.
        pose proof (Z.div_mod (cp / 64) 64 ltac:(lia)) as Hdm2.
        pose proof (Z.mod_pos_bound (cp / 64) 64 ltac:(lia)) as Hr2.
        pose proof (Z.div_mod (cp / 64 / 64) 64 ltac:(lia)) as Hdm3.
        pose proof (Z.mod_pos_bound (cp / 64 / 64) 64 ltac:(lia)) as Hr3.
        replace (cp / 262144) with (cp / 64 / 64 / 64) by (rewrite !Z.div_div by lia; reflexivity).
        replace (cp / 4096) with (cp / 64 / 64) by (rewrite Z.div_div by lia; reflexivity).
        set (r := cp mod 64) in *. set (r2 := cp / 64 mod 64) in *.
        set (r3 := cp / 64 / 64 mod 64) in *.
        set (q := cp / 64 / 64 / 64) in *. clearbody q r r2 r3.
        assert (Hq : 0 <= q < 5) by (destruct Hs; lia).
        simpl. unfold utf8_step at 1, utf8_lead. simpl. ztest. simpl.
        replace ((240 + q) mod 8) with q by (apply (Z.mod_unique _ _ 30); lia).
        assert (Hlo : (if 240 + q =? 240 then 144 else 128) <= 128 + r3).
        { destruct (Z.eqb_spec (240 + q) 240); lia. }
        assert (Hhi : 128 + r3 <= (if 240 + q =? 244 then 143 else 191)).
        { destruct (Z.eqb_spec (240 + q) 244); destruct Hs; lia. }
        unfold utf8_step at 1. cbn [bytesNeeded lowerBoundary upperBoundary codePoint bytesSeen].
        apply Z.leb_le in Hlo, Hhi. rewrite Hlo, Hhi. simpl.
        replace ((128 + r3) mod 64) with r3 by (apply (Z.mod_unique _ _ 2); lia).
        unfold utf8_step at 1. simpl. ztest. simpl.
        replace ((128 + r2) mod 64) with r2 by (apply (Z.mod_unique _ _ 2); lia).
        unfold utf8_step at 1. simpl. ztest. simpl.
        replace ((128 + r) mod 64) with r by (apply (Z.mod_unique _ _ 2); lia).
        f_equal. lia.
Qed.

Lemma utf8_encode_cp_range cp :
  scalar cp -> Forall (fun z => 0 <= z < 256) (utf8_encode_cp cp).
Proof.
  intros Hs. unfold utf8_encode_cp.
  assert (Hcp : 0 <= cp < 1114112) by (destruct Hs; lia).
  pose proof (Z.mod_pos_bound cp 64 ltac:(lia)).
  pose proof (Z.mod_pos_bound (cp / 64) 64 ltac:(lia)).
  pose proof (Z.mod_pos_bound (cp / 4096) 64 ltac:(lia)).
  destruct (Z.ltb_spec cp 128); [repeat constructor; lia|].
  destruct (Z.ltb_spec cp 2048).
  { assert (0 <= cp / 64 < 32) by (split; [apply Z.div_pos | apply Z.div_lt_upper_bound]; lia).
    repeat constructor; lia. }
  destruct (Z.ltb_spec cp 65536).
  { assert (0 <= cp / 4096 < 16) by (split; [apply Z.div_pos | apply Z.div_lt_upper_bound]; lia).
    repeat constructor; lia. }
  assert (0 <= cp / 262144 < 5) by (split; [apply Z.div_pos | apply Z.div_lt_upper_bound]; lia).
  repeat constructor; lia.
Qed.

Lemma bytes_to_of_Z (l : list Z) :
  Forall (fun z => 0 <= z < 256) l -> map byte_to_Z (map byte_of_Z l) = l.
Proof.
  induction 1 as [|z l Hz _ IH]; [reflexivity|].
  simpl. rewrite byte_to_of_Z by exact Hz. rewrite IH. reflexivity.
Qed.

Lemma utf8_decode_encode (cps : list Z) :
  Forall scalar cps ->
  utf8_decode utf8_init (flat_map utf8_encode_cp cps) = cps.
Proof.
  induction 1 as [|cp cps Hcp _ IH]; [reflexivity|].
  simpl. rewrite utf8_decode_encode_cp by exact Hcp. rewrite IH. reflexivity.
Qed.

Lemma utf8_bytes_range (cps : list Z) :
  Forall scalar cps -> Forall (fun z => 0 <= z < 256) (flat_map utf8_encode_cp cps).
Proof.
  induction 1 as [|cp cps Hcp _ IH]; [constructor|].
  simpl. apply Forall_app. split; [apply utf8_encode_cp_range, Hcp | exact IH].
Qed.

Lemma surrogate_tests c :
  (isHighSurrogate c = true <-> 55296 <= c <= 56319) /\
  (isLowSurrogate c = true <-> 56320 <= c <= 57343).
Proof.
  unfold isHighSurrogate, isLowSurrogate.
  rewrite !andb_true_iff, !Z.leb_le. tauto.
Qed.

(** The scalar values of a well-formed string are scalar values, and
    written in UTF-16 they give the string back. *)
Lemma toScalars_wellFormed (n : nat) : forall s : jsstring,
  (length s <= n)%nat -> isWellFormed s = true ->
  Forall scalar (toScalars s) /\ flat_map utf16_encode_cp (toScalars s) = s.
Proof.
  induction n as [|n IH]; intros s Hn Hw.
  - destruct s; [split; [constructor | reflexivity] | simpl in Hn; lia].
  - destruct s as [|c r]; [split; [constructor | reflexivity]|].
    simpl in Hn. cbn [isWellFormed toScalars] in *.
    destruct (isHighSurrogate c) eqn:Hh.
    + destruct r as [|d r']; [discriminate|].
      apply andb_true_iff in Hw as [Hl Hw]. rewrite Hl.
      apply surrogate_tests in Hh. apply surrogate_tests in Hl.
      simpl in Hn. destruct (IH r' ltac:(lia) Hw) as [IH1 IH2].
      split.
      * constructor; [right; lia | exact IH1].
      * cbn [flat_map]. rewrite IH2. unfold utf16_encode_cp.
        replace (65536 + (c - 55296) * 1024 + (d - 56320) <? 65536) with false
          by (symmetry; apply Z.ltb_ge; lia).
        replace (65536 + (c - 55296) * 1024 + (d - 56320) - 65536)
          with ((c - 55296) * 1024 + (d - 56320)) by lia.
        rewrite Z.div_add_l by lia. rewrite Z.div_small by lia.
        rewrite Z.add_comm with (n := (c - 55296) * 1024), Z.mod_add by lia.
        rewrite Z.mod_small by lia. simpl. f_equal; [lia | f_equal; lia].
    + apply andb_true_iff in Hw as [Hw Hr]. apply andb_true_iff in Hw as [Hw Hlt].
      apply andb_true_iff in Hw as [Hl Hge]. apply negb_true_iff in Hl. rewrite Hl.
      apply Z.leb_le in Hge. apply Z.ltb_lt in Hlt.
      assert (Hns : ~ (55296 <= c <= 56319)) by (intros H; apply surrogate_tests in H; congruence).
      assert (Hnl : ~ (56320 <= c <= 57343)) by (intros H; apply surrogate_tests in H; congruence).
      destruct (IH r ltac:(lia) Hr) as [IH1 IH2].
      split.
      * constructor; [unfold scalar; lia | exact IH1].
      * cbn [flat_map]. rewrite IH2. unfold utf16_encode_cp.
        replace (c <? 65536) with true by (symmetry; apply Z.ltb_lt; lia). reflexivity.
Qed.

Lemma toScalars_head (s : jsstring) :
  isWellFormed s = true -> stripBOM (toScalars s) = toScalars (stripBOM s).
Proof.
  destruct s as [|c r]; [reflexivity|]. intros Hw.
  cbn [isWellFormed toScalars stripBOM] in *.
  destruct (isHighSurrogate c) eqn:Hh.
  - apply surrogate_tests in Hh.
    replace (c =? BOM) with false by (symmetry; apply Z.eqb_neq; unfold BOM; lia).
    destruct r as [|d r']; [discriminate|].
    apply andb_true_iff in Hw as [Hl Hw]. rewrite Hl. apply surrogate_tests in Hl.
    cbn [stripBOM toScalars]. 
    replace (65536 + (c - 55296) * 1024 + (d - 56320) =? BOM) with false
      by (symmetry; apply Z.eqb_neq; unfold BOM; lia).
    destruct (isHighSurrogate c) eqn:Hh'; [|apply surrogate_tests in Hh; congruence].
    destruct (isLowSurrogate d) eqn:Hl'; [|apply surrogate_tests in Hl; congruence].
    reflexivity.
  - apply andb_true_iff in Hw as [Hw Hr]. apply andb_true_iff in Hw as [Hw Hlt].
    apply andb_true_iff in Hw as [Hl Hge]. apply negb_true_iff in Hl. rewrite Hl.
    cbn [stripBOM]. destruct (c =? BOM) eqn:E; [reflexivity|].
    cbn [toScalars]. rewrite Hh, Hl. reflexivity.
Qed.

Lemma isWellFormed_stripBOM (s : jsstring) :
  isWellFormed s = true -> isWellFormed (stripBOM s) = true.
Proof.
  destruct s as [|c r]; [reflexivity|]. intros Hw. cbn [stripBOM].
  destruct (c =? BOM) eqn:E; [|exact Hw].
  apply Z.eqb_eq in E. subst c. simpl in Hw. exact Hw.
Qed.

(** Encoding a well-formed string and decoding the bytes gives the string
    back, less a leading byte order mark. *)
Lemma decode_encode (s : jsstring) :
  isWellFormed s = true -> decode (encode s) = stripBOM s.
Proof.
  intros Hw. unfold decode, encode.
  destruct (toScalars_wellFormed (length s) s (le_n _) Hw) as [Hs _].
  rewrite bytes_to_of_Z by (apply utf8_bytes_range, Hs).
  rewrite utf8_decode_encode by exact Hs.
  rewrite toScalars_head by exact Hw.
  apply (toScalars_wellFormed (length (stripBOM s)) _ (le_n _)).
  apply isWellFormed_stripBOM, Hw.
Qed.

(** ** The payload *)

Lemma split_first_split (p : jsstring) :
  split COLON p
  = fst (CodecSpec.split_first p)
    :: match snd (CodecSpec.split_first p) with
       | Some r => split COLON r
       | None => []
       end.
Proof.
  induction p as [|c p IH]; [reflexivity|].
  cbn [split CodecSpec.split_first].
  destruct (c =? COLON); [reflexivity|].
  rewrite IH. destruct (CodecSpec.split_first p) as [a b]. reflexivity.
Qed.

Section BodyFacts.
Context {W : WebCrypto}.

Lemma decryptBody_pieces (secret payload : jsstring) :
  payload <> [] ->
  decryptBody secret payload
  = let ivHex := nth 0 (split COLON payload) [] in
    let dataHex := nth 1 (split COLON payload) [] in
    match ivHex, dataHex with
    | [], _ | _, [] => inl MalformedPayload
    | _, _ =>
        match fromHex ivHex with
        | inl err => inl err
        | inr iv =>
            match fromHex dataHex with
            | inl err => inl err
            | inr data =>
                match aes_gcm_decrypt (deriveKey secret) iv data with
                | None => inl AuthenticationFailure
                | Some decrypted => inr (decode decrypted)
                end
            end
        end
    end.
Proof.
  intros Hp. destruct payload as [|c p]; [contradiction|].
  unfold decryptBody.
  destruct (split COLON (c :: p)) as [|a [|b l]]; cbn [nth nth_error].
  - reflexivity.
  - destruct a; reflexivity.
  - destruct a; [reflexivity|]. destruct b; reflexivity.
Qed.

Context {L : WebCryptoLaws W}.

(** What comes back from a payload just made is the body as the text
    codec returns it. *)
Lemma decryptBody_encryptBody_text (secret : jsstring) (iv : bytes) (body : jsstring) :
  length iv = 12%nat ->
  decryptBody secret (encryptBody secret iv body) = inr (decode (encode body)).
Proof.
  intros Hiv. unfold encryptBody.
  set (enc := aes_gcm_encrypt (deriveKey secret) iv (encode body)).
  assert (Hi : toHex iv <> []).
  { apply toHex_nonempty. intros ->. discriminate. }
  assert (He : toHex enc <> []).
  { apply toHex_nonempty. intros H. apply (f_equal (@length byte)) in H.
    unfold enc in H. rewrite aes_gcm_encrypt_length in H. simpl in H. lia. }
  rewrite decryptBody_pieces.
  2:{ destruct (toHex iv); [contradiction | discriminate]. }
  change (toHex iv ++ [COLON] ++ toHex enc) with (toHex iv ++ COLON :: toHex enc).
  rewrite split_at_colon by apply toHex_no_colon.
  rewrite split_no_colon by apply toHex_no_colon.
  cbn [nth].
  destruct (toHex iv) as [|h t] eqn:E1; [contradiction|].
  destruct (toHex enc) as [|h' t'] eqn:E2; [contradiction|].
  rewrite <- E1, <- E2, !fromHex_toHex.
  unfold enc. rewrite aes_gcm_decrypt_encrypt. reflexivity.
Qed.

Lemma length_parity (n : nat) : (Z.of_nat n mod 2 =? 0) = Nat.even n.
Proof.
  destruct (Nat.even n) eqn:E.
  - apply Nat.even_spec in E as [k ->]. apply Z.eqb_eq.
    rewrite Nat2Z.inj_mul, Z.mul_comm. apply Z.mod_mul. lia.
  - assert (H : Nat.odd n = true) by (rewrite <- Nat.negb_even, E; reflexivity).
    apply Nat.odd_spec in H as [k ->]. apply Z.eqb_neq.
    rewrite Nat2Z.inj_add, Nat2Z.inj_mul. change (Z.of_nat 2) with 2. change (Z.of_nat 1) with 1.
    rewrite Z.add_comm, Z.mul_comm, Z.mod_add by lia. discriminate.
Qed.

Lemma fromHex_odd (hex : jsstring) :
  Nat.even (length hex) = false -> fromHex hex = inl InvalidEncoding.
Proof. intros H. unfold fromHex. rewrite length_parity, H. reflexivity. Qed.

Lemma fromHex_even (hex : jsstring) :
  Nat.even (length hex) = true ->
  fromHex hex = inr (map (fun byte => toUint8 (parseInt16 byte)) (match_pairs hex)).
Proof. intros H. unfold fromHex. rewrite length_parity, H. reflexivity. Qed.

(** C2, amended. For every secret, every nonce of twelve bytes and every
    body that is a well-formed string (no lone surrogate) and does not
    begin with U+FEFF, decrypting under the secret what encryption under
    that secret produced returns the body. *)
Theorem decryptBody_encryptBody (secret : jsstring) (iv : bytes) (body : jsstring) :
  length iv = 12%nat ->
  isWellFormed body = true ->
  hd_error body <> Some BOM ->
  decryptBody secret (encryptBody secret iv body) = inr body.
Proof.
  intros Hiv Hw Hb.
  rewrite decryptBody_encryptBody_text by exact Hiv.
  rewrite decode_encode by exact Hw.
  destruct body as [|c r]; [reflexivity|]. cbn [stripBOM].
  destruct (Z.eqb_spec c BOM) as [->|_]; [|reflexivity].
  exfalso. apply Hb. reflexivity.
Qed.

(** Under any lawful cipher, a leading U+FEFF is lost on the way. *)
Lemma decryptBody_encryptBody_BOM (secret : jsstring) (iv : bytes) (body : jsstring) :
  length iv = 12%nat ->
  isWellFormed body = true ->
  decryptBody secret (encryptBody secret iv (BOM :: body)) = inr body.
Proof.
  intros Hiv Hw.
  rewrite decryptBody_encryptBody_text by exact Hiv.
  rewrite decode_encode by exact Hw. reflexivity.
Qed.

End BodyFacts.

Section DecryptFacts.
Context {W : WebCrypto}.

(** The two halves of a payload, as [decryptBody] takes them: the text
    before the first colon, and the text between the first colon and the
    second one (up to the end when there is no second colon; empty when
    there is no colon at all). *)
Lemma decryptBody_halves (secret payload : jsstring) :
  payload <> [] ->
  forall ivHex rest dataHex,
    CodecSpec.split_first payload = (ivHex, rest) ->
    dataHex = match rest with
              | Some r => fst (CodecSpec.split_first r)
              | None => []
              end ->
    decryptBody secret payload
    = match ivHex, dataHex with
      | [], _ | _, [] => inl MalformedPayload
      | _, _ =>
          match fromHex ivHex with
          | inl err => inl err
          | inr iv =>
              match fromHex dataHex with
              | inl err => inl err
              | inr data =>
                  match aes_gcm_decrypt (deriveKey secret) iv data with
                  | None => inl AuthenticationFailure
                  | Some decrypted => inr (decode decrypted)
                  end
              end
          end
      end.
Proof.
  intros Hp ivHex rest dataHex Hsf Hd.
  rewrite decryptBody_pieces by exact Hp.
  rewrite split_first_split, Hsf. cbn [fst snd nth].
  assert (Hn : nth 0 (match rest with Some r => split COLON r | None => [] end) [] = dataHex).
  { subst dataHex. destruct rest as [r|]; [|reflexivity].
    rewrite split_first_split. reflexivity. }
  cbv zeta. rewrite Hn. reflexivity.
Qed.

(** C3, amended. [decryptBody] returns the empty string for the empty
    payload. For any other payload it takes as first half the text before
    the first colon and as second half the text between the first colon and
    the second one (up to the end when there is no second colon; none when
    there is no colon). It fails with MalformedPayload when a half is
    missing or empty, and otherwise with InvalidEncoding when a half has
    an odd length. *)
Theorem decryptBody_errors (secret payload : jsstring) :
  (payload = [] -> decryptBody secret payload = inr []) /\
  (payload <> [] ->
   forall ivHex rest dataHex,
     CodecSpec.split_first payload = (ivHex, rest) ->
     dataHex = match rest with
               | Some r => fst (CodecSpec.split_first r)
               | None => []
               end ->
     (ivHex = [] \/ dataHex = [] ->
        decryptBody secret payload = inl MalformedPayload) /\
     (ivHex <> [] -> dataHex <> [] ->
      Nat.even (length ivHex) = false \/ Nat.even (length dataHex) = false ->
        decryptBody secret payload = inl InvalidEncoding)).
Proof.
  split; [intros ->; reflexivity|].
  intros Hp ivHex rest dataHex Hsf Hd.
  rewrite (decryptBody_halves secret payload Hp ivHex rest dataHex Hsf Hd).
  clear Hsf Hd. split.
  - intros [-> | ->]; [reflexivity | destruct ivHex; reflexivity].
  - intros Hi Hd Hodd.
    destruct ivHex as [|c1 t1] eqn:E1; [contradiction|].
    destruct dataHex as [|c2 t2] eqn:E2; [contradiction|].
    rewrite <- E1, <- E2 in *.
    destruct (Nat.even (length ivHex)) eqn:Ev.
    + rewrite (fromHex_even ivHex Ev).
      destruct Hodd as [Ho|Ho]; [discriminate|]. rewrite (fromHex_odd dataHex Ho). reflexivity.
    + rewrite (fromHex_odd ivHex Ev). reflexivity.
Qed.

(** Two halves of even length are never refused as badly encoded, whatever
    their characters: every pair is read with [parseInt] and the bytes go
    to the authenticated decryption, whose verdict is the result. *)
Lemma decryptBody_even_halves (secret payload : jsstring) :
  payload <> [] ->
  forall ivHex rest dataHex,
    CodecSpec.split_first payload = (ivHex, rest) ->
    dataHex = match rest with
              | Some r => fst (CodecSpec.split_first r)
              | None => []
              end ->
    ivHex <> [] -> dataHex <> [] ->
    Nat.even (length ivHex) = true -> Nat.even (length dataHex) = true ->
    exists iv data,
      fromHex ivHex = inr iv /\ fromHex dataHex = inr data /\
      decryptBody secret payload
      = match aes_gcm_decrypt (deriveKey secret) iv data with
        | None => inl AuthenticationFailure
        | Some decrypted => inr (decode decrypted)
        end.
Proof.
  intros Hp ivHex rest dataHex Hsf Hd Hi Hd' Ev1 Ev2.
  rewrite (decryptBody_halves secret payload Hp ivHex rest dataHex Hsf Hd).
  destruct ivHex as [|c1 t1] eqn:E1; [contradiction|].
  destruct dataHex as [|c2 t2] eqn:E2; [contradiction|].
  rewrite <- E1, <- E2 in *.
  rewrite (fromHex_even ivHex Ev1), (fromHex_even dataHex Ev2).
  do 2 eexists. split; [reflexivity|]. split; reflexivity.
Qed.

(** Under any cipher, a payload of two halves that are not hexadecimal is
    not refused as badly encoded. *)
Lemma decryptBody_nonhex_not_refused (secret : jsstring) :
  decryptBody secret (ascii_js "zz:zz") <> inl InvalidEncoding.
Proof.
  destruct (decryptBody_even_halves secret (ascii_js "zz:zz") ltac:(discriminate)
              (ascii_js "zz") (Some (ascii_js "zz")) (ascii_js "zz")
              eq_refl eq_refl ltac:(discriminate) ltac:(discriminate) eq_refl eq_refl)
    as (iv & data & _ & _ & ->).
  destruct (aes_gcm_decrypt _ _ _); discriminate.
Qed.

End DecryptFacts.

End CodecFacts.

(** ** The codec at work *)

Module CodecExamples.
Import Codec CodecFacts Scenario.
Local Open Scope Z_scope.
#[local] Existing Instance TagCipher.cipher.

Lemma TagCipher_laws : WebCryptoLaws TagCipher.cipher.
Proof.
  split; intros key iv data;
    unfold aes_gcm_decrypt, aes_gcm_encrypt, TagCipher.cipher.
  - rewrite length_app. change (length TagCipher.tag) with 16%nat.
    replace (length data + 16 - 16)%nat with (length data) by lia.
    rewrite drop_app_length, take_app_length.
    replace (16 <=? length data + 16)%nat with true by (symmetry; apply Nat.leb_le; lia).
    reflexivity.
  - rewrite length_app. reflexivity.
Qed.

Lemma decryptBody_encryptBody_witness :
  length nonce = 12%nat /\ isWellFormed draft = true /\ hd_error draft <> Some BOM /\
  decryptBody secret (encryptBody secret nonce draft) = inr draft.
Proof.
  assert (H : hd_error draft <> Some BOM) by discriminate.
  split; [reflexivity|]. split; [reflexivity|]. split; [exact H|].
  exact (decryptBody_encryptBody (L := TagCipher_laws) secret nonce draft eq_refl eq_refl H).
Defined.

(** A body that begins with U+FEFF comes back without it, and a lone
    surrogate comes back as U+FFFD. *)
Lemma roundtrip_loses_text :
  decryptBody secret (encryptBody secret nonce (BOM :: draft)) = inr draft /\
  decryptBody secret (encryptBody secret nonce (BOM :: draft)) <> inr (BOM :: draft) /\
  decryptBody secret (encryptBody secret nonce [55296]) = inr [REPLACEMENT] /\
  decryptBody secret (encryptBody secret nonce [55296]) <> inr [55296].
Proof.
  assert (H1 : decryptBody secret (encryptBody secret nonce (BOM :: draft)) = inr draft)
    by (vm_compute; reflexivity).
  assert (H2 : decryptBody secret (encryptBody secret nonce [55296]) = inr [REPLACEMENT])
    by (vm_compute; reflexivity).
  split; [exact H1|]. split; [rewrite H1; discriminate|].
  split; [exact H2|]. rewrite H2. discriminate.
Qed.

Lemma decryptBody_errors_witness :
  decryptBody secret [] = inr [] /\
  decryptBody secret (ascii_js "abcd") = inl MalformedPayload /\
  decryptBody secret (ascii_js "abc:de") = inl InvalidEncoding.
Proof.
  split; [exact (proj1 (decryptBody_errors secret []) eq_refl)|].
  split.
  - refine (proj1 (proj2 (decryptBody_errors secret (ascii_js "abcd")) _
                     (ascii_js "abcd") None [] eq_refl eq_refl) _).
    + discriminate.
    + right. reflexivity.
  - refine (proj2 (proj2 (decryptBody_errors secret (ascii_js "abc:de")) _
                     (ascii_js "abc") (Some (ascii_js "de")) (ascii_js "de")
                     eq_refl eq_refl) _ _ _).
    + discriminate.
    + discriminate.
    + discriminate.
    + left. reflexivity.
Defined.

(** Two payloads on which the code and the specification's words part:
    halves that are not hexadecimal are not refused as such, and the second
    half ends at the second colon. *)
Lemma decryptBody_differs_from_spec :
  decryptBody secret (ascii_js "zz:zz") = inl AuthenticationFailure /\
  CodecSpec.decrypt secret (ascii_js "zz:zz") = inl InvalidEncoding /\
  decryptBody secret (ascii_js "aa::bb") = inl MalformedPayload /\
  CodecSpec.decrypt secret (ascii_js "aa::bb") = inl InvalidEncoding.
Proof. repeat split; vm_compute; reflexivity. Qed.

End CodecExamples.

(** * Properties of the session layer *)

Module SessionFacts.
Import Vault Codec Session.
Section Facts.
Context {CVS : ConfidentialValueStore} {W : WebCrypto}.

(** The handler has no path that throws: every error raised inside its
    [try] block is caught. *)
Lemma updateBody_returns signer iv now self (a : AppState) (chain : State) :
  exists r, updateBody signer iv now self a chain = inr r.
Proof.
  unfold updateBody.
  destruct (activeDocument a); [|eexists; reflexivity].
  destruct (clearSecret a); [eexists; reflexivity|].
  destruct signer; [|eexists; reflexivity].
  destruct (updateDocumentBody _ _ _ _) as [err|[u chain']]; eexists; reflexivity.
Qed.

(** C9, amended. When the ledger rejects the write, with [Unauthorized] or
    with any other error, [updateBody] does not pass the error on to its
    caller: it returns normally, having written the error as it is to the
    console and set the status to one fixed message, the same for every
    kind of error; the ledger, the decrypted body and the document list are
    as before. *)
Theorem updateBody_catches signer iv now self (a : AppState) (chain : State)
    doc account err :
  activeDocument a = Some doc -> clearSecret a <> [] -> signer = Some account ->
  updateDocumentBody (mkEnv account now self) (activeDocumentIndex a)
    (abi_string (encryptBody (clearSecret a) iv (bodyDraft a))) chain = inl err ->
  exists a',
    updateBody signer iv now self a chain = inr (a', chain) /\
    status a' = Some "Update failed. Confirm you have ACL to this document."%string /\
    console a' = console a ++ [err] /\
    isUpdating a' = false /\
    decryptedBody a' = decryptedBody a /\
    documents a' = documents a.
Proof.
  intros Hd Hs -> Hu. unfold updateBody. rewrite Hd.
  destruct (clearSecret a) as [|c s] eqn:E; [contradiction|].
  rewrite Hu. eexists. split; [reflexivity|]. repeat split.
Qed.

End Facts.
End SessionFacts.

Module SessionExamples.
Import Vault Codec Session SessionFacts Scenario.
#[local] Existing Instance MapStore.store.
#[local] Existing Instance TagCipher.cipher.

Lemma updateBody_catches_witness :
  activeDocument app = Some doc1 /\
  clearSecret app <> [] /\
  updateDocumentBody (by_ bob 300) (activeDocumentIndex app) payload created
  = inl (Unauthorized bob) /\
  exists a',
    updateBody (Some bob) nonce 300 vault app created = inr (a', created) /\
    status a' = Some "Update failed. Confirm you have ACL to this document."%string /\
    console a' = console app ++ [Unauthorized bob] /\
    isUpdating a' = false /\
    decryptedBody a' = decryptedBody app /\
    documents a' = documents app.
Proof.
  assert (Hs : clearSecret app <> []) by discriminate.
  assert (Hu : updateDocumentBody (by_ bob 300) (activeDocumentIndex app) payload created
               = inl (Unauthorized bob)) by reflexivity.
  split; [reflexivity|]. split; [exact Hs|]. split; [exact Hu|].
  exact (updateBody_catches (Some bob) nonce 300 vault app created
           doc1 bob (Unauthorized bob)
           eq_refl Hs eq_refl Hu).
Defined.

(** The ledger turns Bob away with [Unauthorized]; the caller of
    [updateBody] gets a normal return, not that error. *)
Lemma updateBody_swallows_Unauthorized :
  updateDocumentBody (by_ bob 300) (activeDocumentIndex app) payload created
  = inl (Unauthorized bob) /\
  updateBody (Some bob) nonce 300 vault app created <> inl (Unauthorized bob).
Proof.
  split; [reflexivity|].
  destruct (updateBody_returns (Some bob) nonce 300 vault app created) as [r ->].
  discriminate.
Qed.

(** The status does not tell the kinds of error apart: a document that is
    not there gives the message an unauthorized write gives. *)
Example updateBody_same_status :
  updateDocumentBody (by_ bob 300) (activeDocumentIndex app) payload deployed
  = inl (DocumentNotFound 1) /\
  match updateBody (Some bob) nonce 300 vault app deployed,
        updateBody (Some bob) nonce 300 vault app created with
  | inr (a1, _), inr (a2, _) => status a1 = status a2
  | _, _ => False
  end.
Proof. split; reflexivity. Qed.

End SessionExamples.

(** * More properties of the ledger *)

Module VaultMore.
Import Vault VaultLog VaultFacts.
Section More.
Context {CVS : ConfidentialValueStore}.

Implicit Types (st : State) (e : Env) (id : uint256) (a : address).

(** ** The list of all documents *)

Lemma nth_error_seq_lt (start len k : nat) :
  nth_error (seq start len) k
  = if (k <? len)%nat then Some (start + k)%nat else None.
Proof.
  revert start k. induction len as [|len IH]; intros start k.
  - destruct k; reflexivity.
  - destruct k as [|k]; simpl.
    + f_equal. lia.
    + rewrite IH. change (S k <? S len)%nat with (k <? len)%nat.
      destruct (k <? len)%nat; [f_equal; lia | reflexivity].
Qed.

Lemma nth_error_getDocuments st (k : nat) :
  nth_error (getDocuments st) k
  = if (k <? N.to_nat (_documentCount st))%nat
    then Some (doc_at st (N.of_nat k + 1)) else None.
Proof.
  unfold getDocuments. rewrite nth_error_map, nth_error_seq_lt.
  destruct (k <? N.to_nat (_documentCount st))%nat; reflexivity.
Qed.

(** X1. In every reachable state [getDocuments] has [documentCount]
    entries and its entry of index [k] is the document [getDocument]
    returns for the identifier [k + 1]: all the documents, by ascending
    identifier, and nothing else. *)
Theorem getDocuments_by_id st :
  reachable st ->
  length (getDocuments st) = N.to_nat (documentCount st) /\
  forall (k : nat) d,
    nth_error (getDocuments st) k = Some d <-> getDocument (N.of_nat k + 1) st = inr d.
Proof.
  intros Hr. apply reachable_Inv in Hr as [H1 _ _ _ _ _ _ _]. split.
  - unfold getDocuments. rewrite length_map, length_seq. reflexivity.
  - intros k d. rewrite nth_error_getDocuments, getDocument_inr.
    destruct (Nat.ltb_spec k (N.to_nat (_documentCount st))) as [Hk|Hk].
    + split.
      * intros [= <-]. split; [reflexivity|]. apply H1. lia.
      * intros [-> _]. reflexivity.
    + split; [discriminate|]. intros [_ Hex]. apply H1 in Hex. lia.
Qed.

(** ** Unknown identifiers *)

(** X2. In a reachable state the identifier 0 and every identifier above
    [documentCount] is unknown to every function that takes one: the three
    views, [grantAccess] and [updateDocumentBody] all revert with
    [DocumentNotFound], whoever calls and whatever the other arguments and
    the authority say. *)
Theorem unknown_id_not_found st id :
  reachable st -> id = 0 \/ documentCount st < id ->
  getDocument id st = inl (DocumentNotFound id) /\
  (forall a, isAuthorized id a st = inl (DocumentNotFound id)) /\
  getCollaborators id st = inl (DocumentNotFound id) /\
  (forall e g, grantAccess e id g st = inl (DocumentNotFound id)) /\
  (forall e b, updateDocumentBody e id b st = inl (DocumentNotFound id)).
Proof.
  intros Hr Hid. apply reachable_Inv in Hr as [H1 _ _ _ _ _ _ _].
  assert (E : owner (doc_at st id) = address0).
  { destruct (N.eq_dec (owner (doc_at st id)) address0) as [E|E]; [exact E|].
    apply H1 in E. unfold documentCount in Hid. lia. }
  unfold getDocument, isAuthorized, getCollaborators, grantAccess, updateDocumentBody.
  rewrite E. simpl. repeat split.
Qed.

(** ** What a creation and a grant leave behind *)

(** X3. In a reachable state, a [createDocument] with a name that is not
    empty, from a sender that is not the zero address, below the limit of
    the counter and with an encrypted input that the authority accepts for
    the sender, returns an identifier whose only authorized identity is
    the sender and whose collaborator list is the sender alone, and appends
    one [DocumentCreated] event to the log; the authority is told to allow
    the sender and the contract on the handle it gave; the collaborators
    and the authorizations of every other document are as before. *)
Theorem createDocument_seeds_acl e n s p st (h : euint64) (a1 : acl) :
  reachable st -> n <> ""%string -> documentCount st < MAX_UINT256 ->
  sender e <> address0 ->
  fromExternal s p (sender e) (fhe st) = Some (h, a1) ->
  exists id st',
    createDocument e n s p st = inr (id, st') /\
    getCollaborators id st' = inr [sender e] /\
    (forall a, isAuthorized id a st' = inr (bool_decide (a = sender e))) /\
    events st' = events st ++ [DocumentCreated id (sender e) n] /\
    fhe st' = allow h (this e) (allow h (sender e) a1) /\
    (forall i, i <> id ->
       getCollaborators i st' = getCollaborators i st /\
       forall a, isAuthorized i a st' = isAuthorized i a st).
Proof.
  intros Hr Hn Hlt Hs Hf. unfold documentCount in Hlt.
  destruct (createDocument_returns e n s p st h a1 Hn Hlt Hf) as [st' Hc].
  exists (_documentCount st + 1), st'. split; [exact Hc|].
  apply reachable_Inv in Hr as [H1 _ _ H4 H5 _ _ H8].
  apply createDocument_inr in Hc as (_ & _ & _ & secret & a2 & Hf' & ->).
  rewrite Hf in Hf'. injection Hf' as <- <-.
  remember (_documentCount st + 1) as i eqn:Hi.
  assert (Hfresh : list_at st i = []).
  { rewrite H4, H8; [reflexivity | lia]. }
  assert (Hsn : (sender e =? address0) = false) by (apply N.eqb_neq; exact Hs).
  split; [|split; [|split; [|split]]].
  - unfold getCollaborators. rewrite doc_at_insert, list_at_insert.
    destruct (decide (i = i)); [|contradiction]. simpl. rewrite Hsn, Hfresh. reflexivity.
  - intros a. unfold isAuthorized. rewrite doc_at_insert, collab_at_insert.
    destruct (decide (i = i)); [|contradiction]. simpl. rewrite Hsn. f_equal.
    destruct (decide ((i, sender e) = (i, a))) as [[= <-]|Hne].
    + symmetry. apply bool_decide_eq_true. reflexivity.
    + fold (collab_at st i a).
      assert (Hc : collab_at st i a = false).
      { destruct (collab_at st i a) eqn:E; [|reflexivity].
        apply H5 in E. rewrite Hfresh in E. inversion E. }
      rewrite Hc. symmetry. apply bool_decide_eq_false. congruence.
  - reflexivity.
  - reflexivity.
  - intros j Hj. split.
    + unfold getCollaborators. rewrite doc_at_insert, list_at_insert.
      destruct (decide (i = j)); [congruence|]. reflexivity.
    + intros a. unfold isAuthorized. rewrite doc_at_insert, collab_at_insert.
      destruct (decide (i = j)); [congruence|].
      destruct (decide ((i, sender e) = (j, a))) as [[= ? ?]|_]; [congruence|]. reflexivity.
Qed.

(** X4. When the owner grants access to an identity that is not the zero
    address and is not yet authorized, the call succeeds, the grantee is
    authorized and is appended at the end of the document's collaborator
    list; no other authorization, no other list and no document changes,
    and the authority is asked to allow the grantee on the document's
    handle. *)
Theorem grantAccess_appends e id g st d :
  getDocument id st = inr d -> sender e = owner d -> g <> address0 ->
  isAuthorized id g st = inr false ->
  exists st' l,
    grantAccess e id g st = inr (tt, st') /\
    getCollaborators id st = inr l /\
    getCollaborators id st' = inr (l ++ [g]) /\
    isAuthorized id g st' = inr true /\
    (forall i a, (i, a) <> (id, g) -> isAuthorized i a st' = isAuthorized i a st) /\
    (forall i, i <> id -> getCollaborators i st' = getCollaborators i st) /\
    (forall i, getDocument i st' = getDocument i st) /\
    fhe st' = allow (encryptedSecret d) g (fhe st).
Proof.
  intros Hd Hs Hg Ha. apply getDocument_inr in Hd as [-> Hex].
  pose proof Hex as Hex'. apply N.eqb_neq in Hex'.
  unfold isAuthorized in Ha. rewrite Hex' in Ha. injection Ha as Ha.
  pose proof Hg as Hg'. apply N.eqb_neq in Hg'.
  unfold grantAccess. rewrite Hex', Hs, N.eqb_refl, Hg', Ha. simpl.
  eexists. exists (list_at st id). split; [reflexivity|].
  match goal with |- context [getCollaborators id ?s = inr (_ ++ _)] => set (st' := s) end.
  assert (Hdoc : forall i, doc_at st' i = doc_at st i) by reflexivity.
  unfold getCollaborators, isAuthorized, getDocument. setoid_rewrite Hdoc. rewrite Hex'.
  split; [reflexivity|]. split; [|split; [|split; [|split; [|split]]]].
  - unfold st'. rewrite list_at_insert. destruct (decide (id = id)); [|contradiction].
    reflexivity.
  - unfold st'. rewrite collab_at_insert.
    destruct (decide ((id, g) = (id, g))); [|contradiction]. reflexivity.
  - intros i a Hne. unfold st'. rewrite collab_at_insert.
    destruct (decide ((id, g) = (i, a))); [congruence|]. reflexivity.
  - intros i Hne. unfold st'. rewrite list_at_insert.
    destruct (decide (id = i)); [congruence|]. reflexivity.
  - intros i. reflexivity.
  - reflexivity.
Qed.

(** X5. [grantAccess] succeeds exactly when the document exists, the
    sender is its owner and the grantee is not the zero address; the owner
    granting to the zero address gets [InvalidAddress]. *)
Theorem grantAccess_succeeds_iff e id g st :
  ((exists st', grantAccess e id g st = inr (tt, st')) <->
   (exists d, getDocument id st = inr d /\ sender e = owner d) /\ g <> address0) /\
  (forall d, getDocument id st = inr d -> sender e = owner d -> g = address0 ->
     grantAccess e id g st = inl InvalidAddress).
Proof.
  split.
  - split.
    + intros [st' H]. apply grantAccess_inr in H as (Hex & Hs & Hg & _).
      split; [|exact Hg]. exists (doc_at st id). split; [|congruence].
      apply getDocument_inr. auto.
    + intros [(d & Hd & Hs) Hg]. apply getDocument_inr in Hd as [-> Hex].
      apply N.eqb_neq in Hex, Hg. unfold grantAccess.
      rewrite Hex, Hs, N.eqb_refl, Hg. simpl.
      destruct (collab_at st id g); eexists; reflexivity.
  - intros d Hd Hs ->. apply getDocument_inr in Hd as [-> Hex].
    apply N.eqb_neq in Hex. unfold grantAccess.
    rewrite Hex, Hs, N.eqb_refl. reflexivity.
Qed.

(** ** What never changes, what only grows *)

Lemma exec_monotone e c st st' :
  Inv st -> exec e c st = inr st' ->
  _documentCount st <= _documentCount st' /\
  forall id,
    (owner (doc_at st id) <> address0 ->
     name (doc_at st' id) = name (doc_at st id) /\
     owner (doc_at st' id) = owner (doc_at st id) /\
     encryptedSecret (doc_at st' id) = encryptedSecret (doc_at st id)) /\
    (exists k, list_at st' id = list_at st id ++ k) /\
    (forall a, collab_at st id a = true -> collab_at st' id a = true).
Proof.
  intros [H1 _ _ _ _ _ _ _] Hx.
  destruct c as [n s p | i g | i b]; simpl in Hx.
  - destruct (createDocument e n s p st) as [|[i st1]] eqn:E; [discriminate|].
    injection Hx as <-. apply createDocument_inr in E as (_ & _ & Hi & secret & a1 & Hf & ->).
    simpl. split; [lia|]. intros id. split; [|split].
    + intros Hex. rewrite doc_at_insert. destruct (decide (i = id)) as [<-|_].
      * apply H1 in Hex. lia.
      * fold (doc_at st id). auto.
    + rewrite list_at_insert. destruct (decide (i = id)) as [<-|_].
      * eexists. reflexivity.
      * exists []. rewrite app_nil_r. reflexivity.
    + intros a Ha. rewrite collab_at_insert.
      destruct (decide ((i, sender e) = (id, a))); [reflexivity | exact Ha].
  - destruct (grantAccess e i g st) as [|[u st1]] eqn:E; [discriminate|].
    injection Hx as <-. apply grantAccess_inr in E as (_ & _ & _ & ->).
    simpl. split; [lia|]. intros id. split; [|split].
    + intros _. auto.
    + destruct (collab_at st i g).
      * exists []. rewrite app_nil_r. reflexivity.
      * rewrite list_at_insert. destruct (decide (i = id)) as [<-|_].
        -- eexists. reflexivity.
        -- exists []. rewrite app_nil_r. reflexivity.
    + intros a Ha. destruct (collab_at st i g); [exact Ha|].
      rewrite collab_at_insert.
      destruct (decide ((i, g) = (id, a))); [reflexivity | exact Ha].
  - destruct (updateDocumentBody e i b st) as [|[u st1]] eqn:E; [discriminate|].
    injection Hx as <-. apply updateDocumentBody_inr in E as (_ & _ & ->).
    simpl. split; [lia|]. intros id. split; [|split].
    + intros _. rewrite doc_at_insert. destruct (decide (i = id)) as [<-|_]; auto.
    + exists []. rewrite app_nil_r. reflexivity.
    + intros a Ha. exact Ha.
Qed.

Lemma run_monotone (cs : list (Env * Call)) st :
  reachable st -> Forall (fun ec => sender (fst ec) <> address0) cs ->
  _documentCount st <= _documentCount (run cs st) /\
  forall id,
    (owner (doc_at st id) <> address0 ->
     name (doc_at (run cs st) id) = name (doc_at st id) /\
     owner (doc_at (run cs st) id) = owner (doc_at st id) /\
     encryptedSecret (doc_at (run cs st) id) = encryptedSecret (doc_at st id)) /\
    (exists k, list_at (run cs st) id = list_at st id ++ k) /\
    (forall a, collab_at st id a = true -> collab_at (run cs st) id a = true).
Proof.
  revert st. induction cs as [|[e c] cs IH]; intros st Hr Hs.
  - simpl. split; [lia|]. intros id. split; [auto|]. split; [|auto].
    exists []. rewrite app_nil_r. reflexivity.
  - inversion Hs as [|? ? He Hcs]; subst. simpl in He. simpl.
    destruct (exec e c st) as [err|st1] eqn:E; [apply IH; assumption|].
    assert (Hr1 : reachable st1) by (eapply reachable_call; eauto).
    destruct (exec_monotone e c st st1 (reachable_Inv st Hr) E) as [Hc Hstep].
    destruct (IH st1 Hr1 Hcs) as [Hc' Hrest].
    split; [lia|]. intros id.
    destruct (Hstep id) as (Hd & [k Hk] & Ha).
    destruct (Hrest id) as (Hd' & [k' Hk'] & Ha').
    split; [|split].
    + intros Hex. destruct (Hd Hex) as (Hn & Ho & Hh).
      assert (Hex1 : owner (doc_at st1 id) <> address0) by congruence.
      destruct (Hd' Hex1) as (Hn' & Ho' & Hh'). repeat split; congruence.
    + exists (k ++ k'). rewrite Hk', Hk, app_assoc. reflexivity.
    + intros a H. apply Ha', Ha, H.
Qed.

(** X6. Whatever transactions follow in a reachable state, a document that
    exists keeps existing under its identifier, with the name, the owner
    and the secret handle it was created with; the counter never goes
    down. *)
Theorem documents_persist (cs : list (Env * Call)) st id d :
  reachable st -> Forall (fun ec => sender (fst ec) <> address0) cs ->
  getDocument id st = inr d ->
  documentCount st <= documentCount (run cs st) /\
  exists d',
    getDocument id (run cs st) = inr d' /\
    name d' = name d /\ owner d' = owner d /\
    encryptedSecret d' = encryptedSecret d.
Proof.
  intros Hr Hs Hd. apply getDocument_inr in Hd as [-> Hex].
  destruct (run_monotone cs st Hr Hs) as [Hc Hall].
  destruct (Hall id) as (Hkeep & _ & _). destruct (Hkeep Hex) as (Hn & Ho & Hh).
  split; [exact Hc|]. exists (doc_at (run cs st) id). split; [|auto].
  apply getDocument_inr. split; [reflexivity | congruence].
Qed.

(** X7. The access list only grows: whatever transactions follow in a
    reachable state, the collaborator list of a document is its earlier
    list with identities added at the end, and an identity that was
    authorized stays authorized. *)
Theorem acl_append_only (cs : list (Env * Call)) st id l :
  reachable st -> Forall (fun ec => sender (fst ec) <> address0) cs ->
  getCollaborators id st = inr l ->
  (exists k, getCollaborators id (run cs st) = inr (l ++ k)) /\
  (forall a, isAuthorized id a st = inr true ->
             isAuthorized id a (run cs st) = inr true).
Proof.
  intros Hr Hs Hl. unfold getCollaborators, isAuthorized in *.
  destruct (owner (doc_at st id) =? address0) eqn:E; [discriminate|].
  injection Hl as <-. apply N.eqb_neq in E.
  destruct (run_monotone cs st Hr Hs) as [_ Hall].
  destruct (Hall id) as (Hkeep & [k Hk] & Ha). destruct (Hkeep E) as (_ & Ho & _).
  assert (E' : (owner (doc_at (run cs st) id) =? address0) = false).
  { apply N.eqb_neq. congruence. }
  rewrite E'. split.
  - exists k. rewrite Hk. reflexivity.
  - intros a [= H]. f_equal. apply Ha, H.
Qed.

(** ** The owner, the zero address and the body *)

Lemma reachable_owner_first st :
  reachable st ->
  forall id, owner (doc_at st id) <> address0 ->
             hd_error (list_at st id) = Some (owner (doc_at st id)).
Proof.
  induction 1 as [a0 | st e c st' Hr IH Hs Hx | st a0 _ IH].
  - intros id H. exfalso. apply H. unfold doc_at. simpl. rewrite lookup_empty. reflexivity.
  - pose proof (reachable_Inv st Hr) as [H1 _ _ H4 _ H6 _ H8].
    destruct c as [n s p | i g | i b]; simpl in Hx.
    + destruct (createDocument e n s p st) as [|[i st1]] eqn:E; [discriminate|].
      injection Hx as <-. apply createDocument_inr in E as (_ & _ & Hi & secret & a1 & Hf & ->).
      intros id. rewrite doc_at_insert, list_at_insert.
      destruct (decide (i = id)) as [<-|_].
      * intros _. simpl. rewrite H4, H8 by lia. reflexivity.
      * apply IH.
    + destruct (grantAccess e i g st) as [|[u st1]] eqn:E; [discriminate|].
      injection Hx as <-. apply grantAccess_inr in E as (_ & _ & _ & ->).
      intros id Hex. change (owner (doc_at st id) <> address0) in Hex.
      change (doc_at _ id) with (doc_at st id).
      destruct (collab_at st i g); [apply IH, Hex|].
      rewrite list_at_insert. destruct (decide (i = id)) as [<-|_]; [|apply IH, Hex].
      specialize (IH i Hex). destruct (list_at st i); [discriminate | exact IH].
    + destruct (updateDocumentBody e i b st) as [|[u st1]] eqn:E; [discriminate|].
      injection Hx as <-. apply updateDocumentBody_inr in E as (_ & _ & ->).
      intros id. rewrite doc_at_insert. change (list_at _ id) with (list_at st id).
      destruct (decide (i = id)) as [<-|_]; apply IH.
  - exact IH.
Qed.

(** X8. In every reachable state the collaborator list of a document
    begins with its owner. *)
Theorem owner_listed_first st id d :
  reachable st -> getDocument id st = inr d ->
  exists rest, getCollaborators id st = inr (owner d :: rest).
Proof.
  intros Hr Hd. apply getDocument_inr in Hd as [-> Hex].
  pose proof (reachable_owner_first st Hr id Hex) as Hh.
  unfold getCollaborators. apply N.eqb_neq in Hex. rewrite Hex.
  destruct (list_at st id) as [|x rest]; [discriminate|].
  injection Hh as ->. exists rest. reflexivity.
Qed.

(** X9. In every reachable state the zero address owns no document, is
    authorized on none and is in no collaborator list. *)
Theorem zero_address_excluded st id d :
  reachable st -> getDocument id st = inr d ->
  owner d <> address0 /\
  isAuthorized id address0 st = inr false /\
  exists l, getCollaborators id st = inr l /\ address0 ∉ l.
Proof.
  intros Hr Hd. apply getDocument_inr in Hd as [-> Hex].
  apply reachable_Inv in Hr as [_ _ _ _ H5 _ H7 _].
  split; [exact Hex|]. unfold isAuthorized, getCollaborators.
  apply N.eqb_neq in Hex. rewrite Hex. split.
  - f_equal. destruct (collab_at st id address0) eqn:E; [|reflexivity].
    apply H5 in E. exfalso. exact (H7 _ E).
  - exists (list_at st id). split; [reflexivity | apply H7].
Qed.

Lemma last_body_snoc id (log : list Event) ev :
  last_body id (log ++ [ev])
  = match ev with
    | DocumentUpdated i _ b => if i =? id then b else last_body id log
    | _ => last_body id log
    end.
Proof. unfold last_body. rewrite fold_left_app. reflexivity. Qed.

Lemma reachable_last_body st :
  reachable st ->
  (forall id, encryptedBody (doc_at st id) = last_body id (events st)) /\
  (forall id, _documentCount st < id -> last_body id (events st) = ""%string).
Proof.
  induction 1 as [a0 | st e c st' Hr [IH1 IH2] Hs Hx | st a0 _ IH].
  - split; [|reflexivity]. intros id. unfold doc_at. simpl. rewrite lookup_empty.
    reflexivity.
  - pose proof (reachable_Inv st Hr) as [H1 _ _ _ _ _ _ _].
    destruct c as [n s p | i g | i b]; simpl in Hx.
    + destruct (createDocument e n s p st) as [|[i st1]] eqn:E; [discriminate|].
      injection Hx as <-. apply createDocument_inr in E as (_ & _ & Hi & secret & a1 & Hf & ->).
      simpl. split.
      * intros id. rewrite doc_at_insert, last_body_snoc.
        destruct (decide (i = id)) as [<-|_]; [|apply IH1].
        simpl. symmetry. apply IH2. lia.
      * intros id Hid. rewrite last_body_snoc. apply IH2. lia.
    + destruct (grantAccess e i g st) as [|[u st1]] eqn:E; [discriminate|].
      injection Hx as <-. apply grantAccess_inr in E as (_ & _ & _ & ->).
      simpl. split.
      * intros id. rewrite last_body_snoc. apply IH1.
      * intros id Hid. rewrite last_body_snoc. apply IH2, Hid.
    + destruct (updateDocumentBody e i b st) as [|[u st1]] eqn:E; [discriminate|].
      injection Hx as <-. apply updateDocumentBody_inr in E as (Hex & _ & ->).
      simpl. split.
      * intros id. rewrite doc_at_insert, last_body_snoc.
        destruct (decide (i = id)) as [<-|Hne].
        -- rewrite N.eqb_refl. reflexivity.
        -- apply N.eqb_neq in Hne. rewrite Hne. apply IH1.
      * intros id Hid. rewrite last_body_snoc.
        assert (Hne : i <> id) by (apply H1 in Hex; lia).
        apply N.eqb_neq in Hne. rewrite Hne. apply IH2, Hid.
  - exact IH.
Qed.

(** X10. In every reachable state the stored body of a document is the
    ciphertext of the last [DocumentUpdated] event the log holds for it,
    and the empty string when the log holds none. *)
Theorem body_is_last_update st id d :
  reachable st -> getDocument id st = inr d ->
  encryptedBody d = last_body id (events st).
Proof.
  intros Hr Hd. apply getDocument_inr in Hd as [-> _].
  apply (proj1 (reachable_last_body st Hr)).
Qed.

End More.

(** ** The ledger's set and the authority *)

Section Consistency.
Context {CVS : ConfidentialValueStore}.
Context {L : ConfidentialValueStoreLaws CVS} {M : ConfidentialValueStoreMonotone CVS}.

(** Whoever the ledger holds as authorized is allowed by the authority,
    and nothing is recorded above the counter. *)
Lemma exec_consistent e c (st st' : State) :
  (forall id a, collab_at st id a = true ->
     isAllowed (encryptedSecret (doc_at st id)) a (fhe st) = true) ->
  (forall j, _documentCount st < j ->
     owner (doc_at st j) = address0 /\ forall a, collab_at st j a = false) ->
  exec e c st = inr st' ->
  (forall id a, collab_at st' id a = true ->
     isAllowed (encryptedSecret (doc_at st' id)) a (fhe st') = true) /\
  (forall j, _documentCount st' < j ->
     owner (doc_at st' j) = address0 /\ forall a, collab_at st' j a = false).
Proof.
  intros HA HB Hx.
  destruct c as [n s p | i g | i b]; simpl in Hx.
  - destruct (createDocument e n s p st) as [|[i st1]] eqn:E; [discriminate|].
    injection Hx as <-. apply createDocument_inr in E as (_ & _ & Hi & secret & a1 & Hf & ->).
    simpl. split.
    + intros id a. rewrite collab_at_insert, doc_at_insert.
      destruct (decide (i = id)) as [<-|Hne].
      * destruct (decide ((i, sender e) = (i, a))) as [[= <-]|Hne].
        -- intros _. simpl. apply isAllowed_allow_mono, isAllowed_allow.
        -- fold (collab_at st i a). rewrite (proj2 (HB i ltac:(lia)) a). discriminate.
      * destruct (decide ((i, sender e) = (id, a))) as [[= ? ?]|_]; [contradiction|].
        fold (collab_at st id a) (doc_at st id). intros Ha.
        apply isAllowed_allow_mono, isAllowed_allow_mono.
        apply (isAllowed_fromExternal_mono _ _ _ _ _ _ _ _ Hf).
        apply HA, Ha.
    + intros j Hj. rewrite doc_at_insert.
      destruct (decide (i = j)) as [<-|Hne]; [lia|].
      fold (doc_at st j). split; [apply HB; lia|].
      intros a. rewrite collab_at_insert.
      destruct (decide ((i, sender e) = (j, a))) as [[= ? ?]|_]; [contradiction|].
      fold (collab_at st j a). apply HB. lia.
  - destruct (grantAccess e i g st) as [|[u st1]] eqn:E; [discriminate|].
    injection Hx as <-. apply grantAccess_inr in E as (Hex & _ & _ & ->).
    assert (Hi : i <= _documentCount st).
    { destruct (N.le_gt_cases i (_documentCount st)) as [H|H]; [exact H|].
      exfalso. apply Hex, HB, H. }
    simpl. split.
    + intros id a. change (doc_at _ id) with (doc_at st id).
      destruct (collab_at st i g) eqn:Hg.
      * intros Ha. change (collab_at st id a = true) in Ha.
        apply isAllowed_allow_mono, HA, Ha.
      * rewrite collab_at_insert.
        destruct (decide ((i, g) = (id, a))) as [[= <- <-]|_].
        -- intros _. apply isAllowed_allow.
        -- fold (collab_at st id a). intros Ha. apply isAllowed_allow_mono, HA, Ha.
    + intros j Hj. change (doc_at _ j) with (doc_at st j).
      split; [apply HB, Hj|]. intros a.
      destruct (collab_at st i g); [apply HB, Hj|].
      rewrite collab_at_insert.
      destruct (decide ((i, g) = (j, a))) as [[= ? ?]|_]; [lia|].
      fold (collab_at st j a). apply HB, Hj.
  - destruct (updateDocumentBody e i b st) as [|[u st1]] eqn:E; [discriminate|].
    injection Hx as <-. apply updateDocumentBody_inr in E as (Hex & _ & ->).
    simpl. split.
    + intros id a Ha. change (collab_at st id a = true) in Ha.
      rewrite doc_at_insert. apply isAllowed_allow_mono.
      destruct (decide (i = id)) as [<-|_]; simpl; apply HA, Ha.
    + intros j Hj. rewrite doc_at_insert.
      destruct (decide (i = j)) as [<-|_].
      * exfalso. apply Hex, HB, Hj.
      * fold (doc_at st j). split; [apply HB, Hj|].
        intros a. change (collab_at st j a = false). apply HB, Hj.
Qed.

Lemma run_consistent (cs : list (Env * Call)) (st : State) :
  (forall id a, collab_at st id a = true ->
     isAllowed (encryptedSecret (doc_at st id)) a (fhe st) = true) ->
  (forall j, _documentCount st < j ->
     owner (doc_at st j) = address0 /\ forall a, collab_at st j a = false) ->
  forall id a, collab_at (run cs st) id a = true ->
    isAllowed (encryptedSecret (doc_at (run cs st) id)) a (fhe (run cs st)) = true.
Proof.
  revert st. induction cs as [|[e c] cs IH]; intros st HA HB; [exact HA|].
  simpl. destruct (exec e c st) as [err|st1] eqn:E; [apply IH; assumption|].
  destruct (exec_consistent e c st st1 HA HB E) as [HA1 HB1]. apply IH; assumption.
Qed.

(** X11. When the authority is lawful and monotone and changes only
    through the contract, the ledger's set stays within the authority's:
    after any run of transactions from deployment, whoever [isAuthorized]
    reports as authorized on a document can write its body. *)
Theorem authorized_can_write (cs : list (Env * Call)) (a0 : acl) e id body :
  isAuthorized id (sender e) (run cs (initial a0)) = inr true ->
  exists st', updateDocumentBody e id body (run cs (initial a0)) = inr (tt, st').
Proof.
  set (st := run cs (initial a0)). intros Ha.
  unfold isAuthorized in Ha.
  destruct (owner (doc_at st id) =? address0) eqn:E; [discriminate|].
  injection Ha as Ha.
  assert (Hal : isAllowed (encryptedSecret (doc_at st id)) (sender e) (fhe st) = true).
  { apply run_consistent; [| |exact Ha].
    - intros i a. unfold collab_at. simpl. rewrite lookup_empty. discriminate.
    - intros j _. unfold doc_at, collab_at. simpl. split; [rewrite lookup_empty; reflexivity|].
      intros a. rewrite lookup_empty. reflexivity. }
  eexists. apply (updateDocumentBody_allowed e id body st (doc_at st id)); [|exact Hal].
  apply getDocument_inr. split; [reflexivity|]. apply N.eqb_neq. exact E.
Qed.

End Consistency.
End VaultMore.

(** ** These properties on the small run *)

Module VaultMoreExamples.
Import Vault VaultLog Scenario Scenario2 VaultFacts VaultExamples VaultMore.
#[local] Existing Instance MapStore.store.

Lemma MapStore_monotone : ConfidentialValueStoreMonotone MapStore.store.
Proof.
  split; simpl.
  - intros h a h' a' s H. apply bool_decide_eq_true in H.
    apply bool_decide_eq_true. set_solver.
  - intros h a x p o s h' s' Hf H. apply bool_decide_eq_true in H.
    destruct p; [discriminate|]. injection Hf as <- <-.
    apply bool_decide_eq_true. set_solver.
Qed.

Lemma getDocuments_by_id_witness :
  reachable written /\
  length (getDocuments written) = N.to_nat (documentCount written) /\
  forall (k : nat) d,
    nth_error (getDocuments written) k = Some d
    <-> getDocument (N.of_nat k + 1) written = inr d.
Proof.
  split; [exact written_reachable|].
  exact (getDocuments_by_id written written_reachable).
Defined.

Lemma unknown_id_not_found_witness :
  reachable created /\ (5 = 0 \/ documentCount created < 5) /\
  getDocument 5 created = inl (DocumentNotFound 5) /\
  (forall a, isAuthorized 5 a created = inl (DocumentNotFound 5)) /\
  getCollaborators 5 created = inl (DocumentNotFound 5) /\
  (forall e g, grantAccess e 5 g created = inl (DocumentNotFound 5)) /\
  (forall e b, updateDocumentBody e 5 b created = inl (DocumentNotFound 5)).
Proof.
  assert (H : 5 = 0 \/ documentCount created < 5) by (right; reflexivity).
  split; [exact created_reachable|]. split; [exact H|].
  exact (unknown_id_not_found created 5 created_reachable H).
Defined.

(** Carol's document on the shared ledger: the authority gives handle 2
    and is told to allow Carol and the vault on it. *)
Lemma createDocument_seeds_acl_witness :
  reachable shared /\ "Notes"%string <> ""%string /\
  documentCount shared < MAX_UINT256 /\ sender (by_ carol 400) <> address0 /\
  fromExternal 9 "proof" (sender (by_ carol 400)) (fhe shared)
  = Some (2, allowed_after_notes) /\
  exists id st',
    createDocument (by_ carol 400) "Notes" 9 "proof" shared = inr (id, st') /\
    getCollaborators id st' = inr [carol] /\
    (forall a, isAuthorized id a st' = inr (bool_decide (a = carol))) /\
    events st' = events shared ++ [DocumentCreated id carol "Notes"] /\
    fhe st' = allow 2 vault (allow 2 carol allowed_after_notes) /\
    (forall i, i <> id ->
       getCollaborators i st' = getCollaborators i shared /\
       forall a, isAuthorized i a st' = isAuthorized i a shared).
Proof.
  assert (Hn : "Notes"%string <> ""%string) by discriminate.
  assert (Hlt : documentCount shared < MAX_UINT256) by reflexivity.
  assert (Hs : sender (by_ carol 400) <> address0) by discriminate.
  assert (Hf : fromExternal 9 "proof" (sender (by_ carol 400)) (fhe shared)
               = Some (2, allowed_after_notes)) by reflexivity.
  split; [exact shared_reachable|]. split; [exact Hn|]. split; [exact Hlt|].
  split; [exact Hs|]. split; [exact Hf|].
  exact (createDocument_seeds_acl (by_ carol 400) "Notes" 9 "proof" shared
           2 allowed_after_notes shared_reachable Hn Hlt Hs Hf).
Defined.

Lemma grantAccess_appends_witness :
  getDocument 1 shared = inr doc1 /\ sender (by_ alice 500) = owner doc1 /\
  carol <> address0 /\ isAuthorized 1 carol shared = inr false /\
  exists st' l,
    grantAccess (by_ alice 500) 1 carol shared = inr (tt, st') /\
    getCollaborators 1 shared = inr l /\
    getCollaborators 1 st' = inr (l ++ [carol]) /\
    isAuthorized 1 carol st' = inr true /\
    (forall i a, (i, a) <> (1, carol) -> isAuthorized i a st' = isAuthorized i a shared) /\
    (forall i, i <> 1 -> getCollaborators i st' = getCollaborators i shared) /\
    (forall i, getDocument i st' = getDocument i shared) /\
    fhe st' = allow (encryptedSecret doc1) carol (fhe shared).
Proof.
  assert (Hg : carol <> address0) by discriminate.
  split; [reflexivity|]. split; [reflexivity|]. split; [exact Hg|].
  split; [reflexivity|].
  exact (grantAccess_appends (by_ alice 500) 1 carol shared doc1
           eq_refl eq_refl Hg eq_refl).
Defined.

Lemma grantAccess_succeeds_iff_witness :
  getDocument 1 shared = inr doc1 /\ sender (by_ alice 500) = owner doc1 /\
  grantAccess (by_ alice 500) 1 address0 shared = inl InvalidAddress.
Proof.
  split; [reflexivity|]. split; [reflexivity|].
  exact (proj2 (grantAccess_succeeds_iff (by_ alice 500) 1 address0 shared)
           doc1 eq_refl eq_refl eq_refl).
Defined.

Lemma documents_persist_witness :
  reachable shared /\ Forall (fun ec => sender (fst ec) <> address0) sequel /\
  getDocument 1 shared = inr doc1 /\
  documentCount shared <= documentCount (run sequel shared) /\
  exists d',
    getDocument 1 (run sequel shared) = inr d' /\
    name d' = name doc1 /\ owner d' = owner doc1 /\
    encryptedSecret d' = encryptedSecret doc1.
Proof.
  split; [exact shared_reachable|]. split; [exact sequel_signed|].
  split; [reflexivity|].
  exact (documents_persist sequel shared 1 doc1 shared_reachable sequel_signed eq_refl).
Defined.

Lemma acl_append_only_witness :
  reachable shared /\ Forall (fun ec => sender (fst ec) <> address0) sequel /\
  getCollaborators 1 shared = inr [alice; bob] /\
  (exists k, getCollaborators 1 (run sequel shared) = inr ([alice; bob] ++ k)) /\
  (forall a, isAuthorized 1 a shared = inr true ->
             isAuthorized 1 a (run sequel shared) = inr true).
Proof.
  split; [exact shared_reachable|]. split; [exact sequel_signed|].
  split; [reflexivity|].
  exact (acl_append_only sequel shared 1 [alice; bob]
           shared_reachable sequel_signed eq_refl).
Defined.

Lemma owner_listed_first_witness :
  reachable written /\
  getDocument 2 written = inr (mkDocument "Notes" "" 2 carol 400) /\
  exists rest, getCollaborators 2 written = inr (carol :: rest).
Proof.
  split; [exact written_reachable|]. split; [reflexivity|].
  exact (owner_listed_first written 2 (mkDocument "Notes" "" 2 carol 400)
           written_reachable eq_refl).
Defined.

Lemma zero_address_excluded_witness :
  reachable shared /\ getDocument 1 shared = inr doc1 /\
  owner doc1 <> address0 /\
  isAuthorized 1 address0 shared = inr false /\
  exists l, getCollaborators 1 shared = inr l /\ address0 ∉ l.
Proof.
  split; [exact shared_reachable|]. split; [reflexivity|].
  exact (zero_address_excluded shared 1 doc1 shared_reachable eq_refl).
Defined.

Lemma body_is_last_update_witness :
  reachable written /\
  getDocument 1 written = inr (mkDocument "Doc One" "ciphertext" 1 alice 300) /\
  encryptedBody (mkDocument "Doc One" "ciphertext" 1 alice 300)
  = last_body 1 (events written).
Proof.
  split; [exact written_reachable|]. split; [reflexivity|].
  exact (body_is_last_update written 1 (mkDocument "Doc One" "ciphertext" 1 alice 300)
           written_reachable eq_refl).
Defined.

Lemma authorized_can_write_witness :
  isAuthorized 1 (sender (by_ bob 300)) (run history (initial MapStore.empty)) = inr true /\
  exists st',
    updateDocumentBody (by_ bob 300) 1 "ciphertext" (run history (initial MapStore.empty))
    = inr (tt, st').
Proof.
  split; [reflexivity|].
  exact (authorized_can_write (L := MapStore_laws) (M := MapStore_monotone)
           history MapStore.empty (by_ bob 300) 1 "ciphertext" eq_refl).
Defined.

End VaultMoreExamples.

(** * More properties of the codec *)

Module CodecMore.
Import Codec CodecText CodecFacts.
Local Open Scope Z_scope.

(** ** Hexadecimal text, both ways *)

Lemma hex_of_byte_lower (b : byte) :
  forallb isLowerHex (padStart 2 48 (toString16 (byte_to_Z b))) = true.
Proof. destruct b; reflexivity. Qed.

Lemma toHex_lowerHex (bs : bytes) : forallb isLowerHex (toHex bs) = true.
Proof.
  induction bs as [|b bs IH]; [reflexivity|].
  rewrite toHex_cons, forallb_app, hex_of_byte_lower, IH. reflexivity.
Qed.

(** X12. [toHex] writes two code units for every byte, each of them a
    lowercase hexadecimal digit. *)
Theorem toHex_lowercase (bs : bytes) :
  length (toHex bs) = (2 * length bs)%nat /\ forallb isLowerHex (toHex bs) = true.
Proof. split; [apply toHex_length | apply toHex_lowerHex]. Qed.

(** X13. [fromHex] reads back what [toHex] wrote: for every byte array,
    decoding its hexadecimal text succeeds and returns the array; so two
    byte arrays with the same hexadecimal text are the same array. *)
Theorem fromHex_inverts_toHex (bs : bytes) :
  fromHex (toHex bs) = inr bs /\
  forall bs' : bytes, toHex bs = toHex bs' -> bs = bs'.
Proof.
  split; [apply fromHex_toHex|].
  intros bs' H. apply (f_equal fromHex) in H.
  rewrite !fromHex_toHex in H. congruence.
Qed.

Lemma isLowerHex_cases (c : Z) :
  isLowerHex c = true ->
  c = 48 \/ c = 49 \/ c = 50 \/ c = 51 \/ c = 52 \/ c = 53 \/ c = 54 \/ c = 55 \/
  c = 56 \/ c = 57 \/ c = 97 \/ c = 98 \/ c = 99 \/ c = 100 \/ c = 101 \/ c = 102.
Proof.
  unfold isLowerHex. rewrite orb_true_iff, !andb_true_iff, !Z.leb_le. lia.
Qed.

Lemma lower_pair (h l : Z) :
  isLowerHex h = true -> isLowerHex l = true ->
  isLineTerminator h = false /\ isLineTerminator l = false /\
  padStart 2 48 (toString16 (byte_to_Z (toUint8 (parseInt16 [h; l])))) = [h; l].
Proof.
  intros Hh Hl. apply isLowerHex_cases in Hh, Hl.
  repeat (destruct Hh as [Hh|Hh]); subst h;
    repeat (destruct Hl as [Hl|Hl]); subst l; repeat split.
Qed.

Lemma toHex_fromHex_pairs (n : nat) : forall hex : jsstring,
  (length hex <= n)%nat ->
  forallb isLowerHex hex = true -> Nat.even (length hex) = true ->
  toHex (map (fun byte => toUint8 (parseInt16 byte)) (match_pairs hex)) = hex.
Proof.
  induction n as [|n IH]; intros hex Hn Hx Hev.
  - destruct hex; [reflexivity | simpl in Hn; lia].
  - destruct hex as [|h [|l rest]]; [reflexivity | discriminate |].
    simpl in Hn. cbn [forallb] in Hx.
    apply andb_true_iff in Hx as [Hh Hx]. apply andb_true_iff in Hx as [Hl Hx].
    destruct (lower_pair h l Hh Hl) as (Th & Tl & Hp).
    cbn [match_pairs]. rewrite Th, Tl. cbn [map]. rewrite toHex_cons, Hp.
    rewrite IH; [reflexivity | lia | exact Hx | exact Hev].
Qed.

(** X14. Conversely [toHex] writes back what [fromHex] read: on a text of
    even length made of lowercase hexadecimal digits, [fromHex] succeeds
    with half as many bytes, and [toHex] of them is the text. *)
Theorem toHex_inverts_fromHex (hex : jsstring) :
  forallb isLowerHex hex = true -> Nat.even (length hex) = true ->
  exists bs,
    fromHex hex = inr bs /\ toHex bs = hex /\ (2 * length bs = length hex)%nat.
Proof.
  intros Hx Hev. rewrite (fromHex_even hex Hev). eexists. split; [reflexivity|].
  pose proof (toHex_fromHex_pairs (length hex) hex (le_n _) Hx Hev) as H.
  split; [exact H|]. rewrite <- toHex_length, H. reflexivity.
Qed.

(** ** The payload *)

Section Payload.
Context {W : WebCrypto}.

(** X15. The nonce is part of the payload: under one secret and for one
    body, two different nonces of twelve bytes give two different
    payloads. *)
Theorem encryptBody_nonce_shows (secret body : jsstring) (iv1 iv2 : bytes) :
  iv1 <> iv2 -> encryptBody secret iv1 body <> encryptBody secret iv2 body.
Proof.
  intros Hne Heq. apply Hne. unfold encryptBody in Heq.
  apply (f_equal (split COLON)) in Heq.
  change (?a ++ [COLON] ++ ?b) with (a ++ COLON :: b) in Heq.
  rewrite !split_at_colon in Heq by apply toHex_no_colon.
  injection Heq as Heq _.
  apply (f_equal fromHex) in Heq. rewrite !fromHex_toHex in Heq. congruence.
Qed.

Lemma split_app_colon (p t : jsstring) :
  split COLON (p ++ COLON :: t) = split COLON p ++ split COLON t.
Proof.
  induction p as [|c p IH]; [reflexivity|].
  cbn [app split]. destruct (c =? COLON); [rewrite IH; reflexivity|].
  rewrite IH. destruct (split COLON p) as [|q qs] eqn:E; [|reflexivity].
  destruct p as [|c' p']; [discriminate|]. simpl in E.
  destruct (c' =? COLON); [discriminate|]. destruct (split COLON p'); discriminate.
Qed.

Lemma split_with_colon (p : jsstring) :
  existsb (fun c => c =? COLON) p = true ->
  exists a b rest, split COLON p = a :: b :: rest.
Proof.
  induction p as [|c p IH]; [discriminate|]. cbn [existsb split].
  destruct (c =? COLON) eqn:E.
  - intros _. destruct (split COLON p) as [|b rest] eqn:Es.
    + destruct p as [|c' p']; [discriminate|]. simpl in Es.
      destruct (c' =? COLON); [discriminate|]. destruct (split COLON p'); discriminate.
    + eauto.
  - simpl. intros H. destruct (IH H) as (a & b & rest & ->). eauto.
Qed.

(** X16. Only the text up to the second colon counts: whatever is
    appended after a further colon to a payload that has a colon, the
    result of [decryptBody] is the same. *)
Theorem decryptBody_ignores_tail (secret p junk : jsstring) :
  existsb (fun c => c =? COLON) p = true ->
  decryptBody secret (p ++ COLON :: junk) = decryptBody secret p.
Proof.
  intros Hc. destruct (split_with_colon p Hc) as (a & b & rest & Hs).
  assert (Hp : p <> []) by (intros ->; discriminate).
  assert (Hp' : p ++ COLON :: junk <> []) by (destruct p; discriminate).
  rewrite (decryptBody_pieces secret p Hp), (decryptBody_pieces secret _ Hp').
  rewrite split_app_colon, Hs. reflexivity.
Qed.

Context {L : WebCryptoLaws W}.

(** X17. The payload of [encryptBody] with a nonce of twelve bytes is 24
    lowercase hexadecimal digits that read back as the nonce, a colon, and
    an even number of lowercase hexadecimal digits: two for every byte of
    the body's UTF-8 text and 32 for the tag. *)
Theorem encryptBody_format (secret : jsstring) (iv : bytes) (body : jsstring) :
  length iv = 12%nat ->
  exists ivHex dataHex,
    encryptBody secret iv body = ivHex ++ COLON :: dataHex /\
    length ivHex = 24%nat /\ fromHex ivHex = inr iv /\
    forallb isLowerHex ivHex = true /\ forallb isLowerHex dataHex = true /\
    length dataHex = (2 * length (encode body) + 32)%nat.
Proof.
  intros Hiv. unfold encryptBody.
  exists (toHex iv), (toHex (aes_gcm_encrypt (deriveKey secret) iv (encode body))).
  split; [reflexivity|].
  split; [rewrite toHex_length, Hiv; reflexivity|].
  split; [apply fromHex_toHex|].
  split; [apply toHex_lowerHex|]. split; [apply toHex_lowerHex|].
  rewrite toHex_length, aes_gcm_encrypt_length. lia.
Qed.

(** ** The round trip of any body *)

Lemma toScalars_any (n : nat) : forall s : jsstring,
  (length s <= n)%nat -> Forall code_unit s ->
  Forall scalar (toScalars s) /\
  flat_map utf16_encode_cp (toScalars s) = toWellFormed s.
Proof.
  assert (Hrep : scalar REPLACEMENT) by (right; unfold REPLACEMENT; lia).
  induction n as [|n IH]; intros s Hn Hu.
  - destruct s; [split; [constructor | reflexivity] | simpl in Hn; lia].
  - destruct s as [|c r]; [split; [constructor | reflexivity]|].
    simpl in Hn. inversion Hu as [|? ? Hc Hr]; subst.
    cbn [toScalars toWellFormed].
    destruct (isHighSurrogate c) eqn:Hh.
    + destruct r as [|d r'];
        [split; [constructor; [exact Hrep | constructor] | reflexivity]|].
      destruct (isLowSurrogate d) eqn:Hl.
      * inversion Hr as [|? ? Hd Hr']; subst. simpl in Hn.
        apply surrogate_tests in Hh. apply surrogate_tests in Hl.
        destruct (IH r' ltac:(lia) Hr') as [IH1 IH2]. split.
        -- constructor; [right; lia | exact IH1].
        -- cbn [flat_map]. rewrite IH2. unfold utf16_encode_cp.
           replace (65536 + (c - 55296) * 1024 + (d - 56320) <? 65536) with false
             by (symmetry; apply Z.ltb_ge; lia).
           replace (65536 + (c - 55296) * 1024 + (d - 56320) - 65536)
             with ((c - 55296) * 1024 + (d - 56320)) by lia.
           rewrite Z.div_add_l by lia. rewrite Z.div_small by lia.
           rewrite Z.add_comm with (n := (c - 55296) * 1024), Z.mod_add by lia.
           rewrite Z.mod_small by lia. simpl. f_equal; [lia | f_equal; lia].
      * destruct (IH (d :: r') ltac:(lia) Hr) as [IH1 IH2]. split.
        -- constructor; [exact Hrep | exact IH1].
        -- cbn [flat_map]. rewrite IH2. reflexivity.
    + destruct (IH r ltac:(lia) Hr) as [IH1 IH2].
      destruct (isLowSurrogate c) eqn:Hl.
      * split; [constructor; [exact Hrep | exact IH1]|].
        cbn [flat_map]. rewrite IH2. reflexivity.
      * assert (Hns : ~ (55296 <= c <= 56319))
          by (intros H; apply surrogate_tests in H; congruence).
        assert (Hnl : ~ (56320 <= c <= 57343))
          by (intros H; apply surrogate_tests in H; congruence).
        unfold code_unit in Hc. split.
        -- constructor; [unfold scalar; lia | exact IH1].
        -- cbn [flat_map]. rewrite IH2. unfold utf16_encode_cp.
           replace (c <? 65536) with true by (symmetry; apply Z.ltb_lt; lia).
           reflexivity.
Qed.

Lemma utf16_stripBOM (cps : list Z) :
  Forall scalar cps ->
  flat_map utf16_encode_cp (stripBOM cps) = stripBOM (flat_map utf16_encode_cp cps).
Proof.
  destruct cps as [|c r]; [reflexivity|]. intros H.
  inversion H as [|? ? Hc _]; subst. cbn [stripBOM flat_map].
  destruct (Z.eqb_spec c BOM) as [->|Hne]; [reflexivity|].
  cbn [flat_map].
  assert (Hu : exists x u, utf16_encode_cp c = x :: u /\ (x =? BOM) = false).
  { unfold utf16_encode_cp. destruct (Z.ltb_spec c 65536) as [Hlt|Hge].
    - exists c, []. split; [reflexivity | apply Z.eqb_neq, Hne].
    - assert (Hq : 0 <= (c - 65536) / 1024 < 1024).
      { split; [apply Z.div_pos; lia | apply Z.div_lt_upper_bound; destruct Hc; lia]. }
      eexists _, _. split; [reflexivity|]. apply Z.eqb_neq. unfold BOM. lia. }
  destruct Hu as (x & u & -> & Hx). cbn [app stripBOM]. rewrite Hx. reflexivity.
Qed.

(** X18. For every body, well-formed or not, what [decryptBody] returns
    for the payload [encryptBody] made under the same secret is the body
    with every lone surrogate replaced by U+FFFD and then one leading
    U+FEFF removed; nothing else is lost. *)
Theorem decryptBody_encryptBody_any (secret : jsstring) (iv : bytes) (body : jsstring) :
  length iv = 12%nat -> Forall code_unit body ->
  decryptBody secret (encryptBody secret iv body) = inr (stripBOM (toWellFormed body)).
Proof.
  intros Hiv Hu. rewrite decryptBody_encryptBody_text by exact Hiv. f_equal.
  destruct (toScalars_any (length body) body (le_n _) Hu) as [Hs Hw].
  unfold decode, encode.
  rewrite bytes_to_of_Z by (apply utf8_bytes_range, Hs).
  rewrite utf8_decode_encode by exact Hs.
  rewrite utf16_stripBOM by exact Hs. rewrite Hw. reflexivity.
Qed.

End Payload.

(** ** The contract library's encoding and TextEncoder's *)

Lemma all_from_spec (P : Z -> bool) (fuel : nat) (z0 : Z) :
  all_from P fuel z0 = true ->
  forall z, z0 <= z < z0 + Z.of_nat fuel -> P z = true.
Proof.
  revert z0. induction fuel as [|k IH]; intros z0 H z Hz; [lia|].
  cbn [all_from] in H. apply andb_true_iff in H as [H0 H1].
  destruct (Z.eq_dec z z0) as [->|Hne]; [exact H0|].
  apply (IH (z0 + 1) H1). lia.
Qed.

Lemma lor_cont (x : Z) : 0 <= x < 64 -> Z.lor x 128 = 128 + x.
Proof.
  intros H.
  apply Z.eqb_eq.
  apply (all_from_spec (fun x => Z.lor x 128 =? 128 + x) 64 0); [reflexivity|lia].
Qed.

Lemma lor_lead2 (x : Z) : 0 <= x < 32 -> Z.lor x 192 = 192 + x.
Proof.
  intros H. apply Z.eqb_eq.
  apply (all_from_spec (fun x => Z.lor x 192 =? 192 + x) 32 0); [reflexivity|lia].
Qed.

Lemma lor_lead3 (x : Z) : 0 <= x < 16 -> Z.lor x 224 = 224 + x.
Proof.
  intros H. apply Z.eqb_eq.
  apply (all_from_spec (fun x => Z.lor x 224 =? 224 + x) 16 0); [reflexivity|lia].
Qed.

Lemma lor_lead4 (x : Z) : 0 <= x < 8 -> Z.lor x 240 = 240 + x.
Proof.
  intros H. apply Z.eqb_eq.
  apply (all_from_spec (fun x => Z.lor x 240 =? 240 + x) 8 0); [reflexivity|lia].
Qed.

Lemma land63 (x : Z) : Z.land x 63 = x mod 64.
Proof. change 63 with (Z.ones 6). rewrite Z.land_ones by lia. reflexivity. Qed.

Lemma land1023 (x : Z) : Z.land x 1023 = x mod 1024.
Proof. change 1023 with (Z.ones 10). rewrite Z.land_ones by lia. reflexivity. Qed.

(* land c 0xFC00 for 16-bit c *)
Lemma land_fc00 (c : Z) : 0 <= c < 65536 -> Z.land c 64512 = c / 1024 * 1024.
Proof.
  intros H.
  assert (E : c = Z.lor (Z.land c 64512) (Z.land c 1023)).
  { rewrite <- Z.land_lor_distr_r. change (Z.lor 64512 1023) with (Z.ones 16).
    rewrite Z.land_ones by lia. rewrite Z.mod_small by lia. reflexivity. }
  assert (D : Z.land (Z.land c 64512) (Z.land c 1023) = 0).
  { rewrite Z.land_assoc, (Z.land_comm (Z.land c 64512) c), Z.land_assoc, Z.land_diag.
    rewrite <- Z.land_assoc. change (Z.land 64512 1023) with 0. apply Z.land_0_r. }
  pose proof (Z.add_lor_land (Z.land c 64512) (Z.land c 1023)) as A.
  rewrite D, <- E, land1023 in A.
  pose proof (Z.div_mod c 1024 ltac:(lia)). lia.
Qed.

Lemma unit_high (c : Z) :
  0 <= c < 65536 -> (Z.land c 64512 =? 55296) = isHighSurrogate c.
Proof.
  intros H. rewrite (land_fc00 c H). unfold isHighSurrogate.
  pose proof (Z.div_mod c 1024 ltac:(lia)) as D.
  pose proof (Z.mod_pos_bound c 1024 ltac:(lia)) as B.
  destruct (Z.eqb_spec (c / 1024 * 1024) 55296) as [E|E].
  - symmetry. apply andb_true_iff. rewrite !Z.leb_le. lia.
  - symmetry. apply andb_false_iff. rewrite !Z.leb_gt.
    destruct (Z.lt_ge_cases c 55296); [left; lia|]. right.
    destruct (Z.lt_ge_cases 56319 c); [lia|]. exfalso. apply E.
    assert (c / 1024 = 54) by lia. lia.
Qed.

Lemma unit_low (c : Z) :
  0 <= c < 65536 -> (Z.land c 64512 =? 56320) = isLowSurrogate c.
Proof.
  intros H. rewrite (land_fc00 c H). unfold isLowSurrogate.
  pose proof (Z.div_mod c 1024 ltac:(lia)) as D.
  pose proof (Z.mod_pos_bound c 1024 ltac:(lia)) as B.
  destruct (Z.eqb_spec (c / 1024 * 1024) 56320) as [E|E].
  - symmetry. apply andb_true_iff. rewrite !Z.leb_le. lia.
  - symmetry. apply andb_false_iff. rewrite !Z.leb_gt.
    destruct (Z.lt_ge_cases c 56320); [left; lia|]. right.
    destruct (Z.lt_ge_cases 57343 c); [lia|]. exfalso. apply E.
    assert (c / 1024 = 55) by lia. lia.
Qed.

Lemma unit_bytes2 (c : Z) :
  128 <= c < 2048 ->
  [Z.lor (Z.shiftr c 6) 192; Z.lor (Z.land c 63) 128] = utf8_encode_cp c.
Proof.
  intros H. unfold utf8_encode_cp.
  replace (c <? 128) with false by (symmetry; apply Z.ltb_ge; lia).
  replace (c <? 2048) with true by (symmetry; apply Z.ltb_lt; lia).
  rewrite Z.shiftr_div_pow2 by lia. change (2 ^ 6) with 64. rewrite land63.
  pose proof (Z.mod_pos_bound c 64 ltac:(lia)).
  assert (0 <= c / 64 < 32)
    by (split; [apply Z.div_pos; lia | apply Z.div_lt_upper_bound; lia]).
  rewrite lor_lead2, lor_cont by lia. reflexivity.
Qed.

Lemma unit_bytes3 (c : Z) :
  2048 <= c < 65536 ->
  [Z.lor (Z.shiftr c 12) 224; Z.lor (Z.land (Z.shiftr c 6) 63) 128;
   Z.lor (Z.land c 63) 128] = utf8_encode_cp c.
Proof.
  intros H. unfold utf8_encode_cp.
  replace (c <? 128) with false by (symmetry; apply Z.ltb_ge; lia).
  replace (c <? 2048) with false by (symmetry; apply Z.ltb_ge; lia).
  replace (c <? 65536) with true by (symmetry; apply Z.ltb_lt; lia).
  rewrite !Z.shiftr_div_pow2 by lia. change (2 ^ 6) with 64. change (2 ^ 12) with 4096.
  rewrite !land63.
  pose proof (Z.mod_pos_bound c 64 ltac:(lia)).
  pose proof (Z.mod_pos_bound (c / 64) 64 ltac:(lia)).
  assert (0 <= c / 4096 < 16)
    by (split; [apply Z.div_pos; lia | apply Z.div_lt_upper_bound; lia]).
  rewrite lor_lead3, !lor_cont by lia. reflexivity.
Qed.

Lemma pair_bytes (p : Z) :
  65536 <= p < 1114112 ->
  [Z.lor (Z.shiftr p 18) 240; Z.lor (Z.land (Z.shiftr p 12) 63) 128;
   Z.lor (Z.land (Z.shiftr p 6) 63) 128; Z.lor (Z.land p 63) 128]
  = utf8_encode_cp p.
Proof.
  intros H. unfold utf8_encode_cp.
  replace (p <? 128) with false by (symmetry; apply Z.ltb_ge; lia).
  replace (p <? 2048) with false by (symmetry; apply Z.ltb_ge; lia).
  replace (p <? 65536) with false by (symmetry; apply Z.ltb_ge; lia).
  rewrite !Z.shiftr_div_pow2 by lia.
  change (2 ^ 6) with 64. change (2 ^ 12) with 4096. change (2 ^ 18) with 262144.
  rewrite !land63.
  pose proof (Z.mod_pos_bound p 64 ltac:(lia)).
  pose proof (Z.mod_pos_bound (p / 64) 64 ltac:(lia)).
  pose proof (Z.mod_pos_bound (p / 4096) 64 ltac:(lia)).
  assert (0 <= p / 262144 < 8)
    by (split; [apply Z.div_pos; lia | apply Z.div_lt_upper_bound; lia]).
  rewrite lor_lead4, !lor_cont by lia. reflexivity.
Qed.

Lemma pair_value (c d : Z) :
  isHighSurrogate c = true -> isLowSurrogate d = true ->
  65536 + Z.shiftl (Z.land c 1023) 10 + Z.land d 1023
  = 65536 + (c - 55296) * 1024 + (d - 56320).
Proof.
  unfold isHighSurrogate, isLowSurrogate. rewrite !andb_true_iff, !Z.leb_le.
  intros Hc Hd. rewrite !land1023, Z.shiftl_mul_pow2 by lia. change (2 ^ 10) with 1024.
  assert (c mod 1024 = c - 55296)
    by (symmetry; apply Z.mod_unique with (q := 54); lia).
  assert (d mod 1024 = d - 56320)
    by (symmetry; apply Z.mod_unique with (q := 55); lia).
  lia.
Qed.

Lemma toUtf8Bytes_wellFormed_upto (n : nat) (s : jsstring) :
  (length s <= n)%nat -> isWellFormed s = true ->
  toUtf8Bytes s = Some (flat_map utf8_encode_cp (toScalars s)).
Proof.
  revert s. induction n as [|n IH]; intros s Hn Hw.
  { destruct s; [reflexivity | simpl in Hn; lia]. }
  destruct s as [|c r]; [reflexivity|]. cbn [length] in Hn.
  cbn [isWellFormed] in Hw. cbn [toUtf8Bytes toScalars].
  destruct (isHighSurrogate c) eqn:Hh.
  - destruct r as [|d r']; [discriminate|].
    apply andb_true_iff in Hw as [Hl Hw]. rewrite Hl.
    pose proof Hh as Hh'. pose proof Hl as Hl'.
    unfold isHighSurrogate in Hh'. unfold isLowSurrogate in Hl'.
    rewrite andb_true_iff, !Z.leb_le in Hh', Hl'.
    replace (c <? 128) with false by (symmetry; apply Z.ltb_ge; lia).
    replace (c <? 2048) with false by (symmetry; apply Z.ltb_ge; lia).
    rewrite unit_high, Hh by lia. rewrite unit_low, Hl by lia.
    cbv zeta. rewrite (pair_value c d Hh Hl), pair_bytes by lia.
    cbn [length] in Hn. rewrite (IH r') by (lia || exact Hw).
    reflexivity.
  - apply andb_true_iff in Hw as [Hw Hr]. apply andb_true_iff in Hw as [Hw H1].
    apply andb_true_iff in Hw as [Hl H0]. apply negb_true_iff in Hl. rewrite Hl.
    apply Z.leb_le in H0. apply Z.ltb_lt in H1.
    rewrite (IH r) by (lia || exact Hr). cbn [flat_map].
    destruct (Z.ltb_spec c 128) as [L1|L1].
    { assert (E : utf8_encode_cp c = [c]).
      { unfold utf8_encode_cp.
        replace (c <? 128) with true by (symmetry; apply Z.ltb_lt; lia). reflexivity. }
      rewrite E. reflexivity. }
    destruct (Z.ltb_spec c 2048) as [L2|L2].
    { rewrite <- unit_bytes2 by lia. reflexivity. }
    rewrite unit_high, Hh by lia. rewrite <- unit_bytes3 by lia. reflexivity.
Qed.

(** X30. On a string without lone surrogates the contract library's
    encoding does not throw and gives the bytes of TextEncoder: the call
    sends the UTF-8 bytes of the text. *)
Theorem toUtf8Bytes_wellFormed (s : jsstring) :
  isWellFormed s = true ->
  toUtf8Bytes s = Some (flat_map utf8_encode_cp (toScalars s)) /\
  Session.abi_encode_string s = Some (Session.abi_string s).
Proof.
  intros Hw.
  pose proof (toUtf8Bytes_wellFormed_upto (length s) s (Nat.le_refl _) Hw) as E.
  split; [exact E|].
  unfold Session.abi_encode_string, Session.abi_string, encode. rewrite E. reflexivity.
Qed.

End CodecMore.

(** * More properties of the session layer *)

Module SessionMore.
Import Vault Codec CodecText Session Page VaultFacts VaultMore CodecFacts CodecMore.
Section More.
Context {CVS : ConfidentialValueStore} {W : WebCrypto}.

(** ** The active document *)

(** X19. When the page holds the list [getDocuments] returned for a
    reachable ledger, the document it shows as active is the ledger's
    document under the selected identifier, the one [activeDocumentIndex]
    sends to the contract; no document is active when no identifier is
    selected or the identifier is unknown. *)
Theorem activeDocument_by_id (a : AppState) (chain : State) d :
  reachable chain -> documents a = getDocuments chain ->
  (activeDocument a = Some d <->
   exists i, selectedId a = Some i /\ activeDocumentIndex a = i /\
             getDocument i chain = inr d).
Proof.
  intros Hr Hdocs. apply reachable_Inv in Hr as [H1 _ _ _ _ _ _ _].
  unfold activeDocument, activeDocumentIndex. rewrite Hdocs.
  destruct (selectedId a) as [[|i]|].
  - split; [discriminate|]. intros (i & [= <-] & _ & Hd).
    apply getDocument_inr in Hd as [_ Hex]. apply H1 in Hex. lia.
  - rewrite nth_error_getDocuments.
    replace (N.of_nat (N.to_nat (N.pos i - 1)) + 1) with (N.pos i) by lia.
    destruct (Nat.ltb_spec (N.to_nat (N.pos i - 1)) (N.to_nat (_documentCount chain)))
      as [Hk|Hk].
    + split.
      * intros [= <-]. exists (N.pos i). split; [reflexivity|]. split; [reflexivity|].
        apply getDocument_inr. split; [reflexivity|]. apply H1. lia.
      * intros (j & [= <-] & _ & Hd). apply getDocument_inr in Hd as [-> _]. reflexivity.
    + split; [discriminate|]. intros (j & [= <-] & _ & Hd).
      apply getDocument_inr in Hd as [_ Hex]. apply H1 in Hex. lia.
  - split; [discriminate|]. intros (i & H & _). discriminate.
Qed.

(** ** Writing a body *)

(** X20. [updateBody] reaches the ledger through one call only: the
    ledger after it is the ledger before it, or the result of
    [updateDocumentBody] by the signer on the selected identifier with the
    payload [encryptBody] made of the recovered secret and the draft. *)
Theorem updateBody_one_call signer iv now self (a a' : AppState) (chain chain' : State) :
  updateBody signer iv now self a chain = inr (a', chain') ->
  chain' = chain \/
  exists account,
    signer = Some account /\
    updateDocumentBody (mkEnv account now self) (activeDocumentIndex a)
      (abi_string (encryptBody (clearSecret a) iv (bodyDraft a))) chain
    = inr (tt, chain').
Proof.
  unfold updateBody.
  destruct (activeDocument a); [|intros [= _ <-]; left; reflexivity].
  destruct (clearSecret a) as [|c s] eqn:E; [intros [= _ <-]; left; reflexivity|].
  destruct signer as [account|]; [|intros [= _ <-]; left; reflexivity].
  destruct (updateDocumentBody _ _ _ _) as [err|[[] st1]] eqn:Hu.
  - intros [= _ <-]. left. reflexivity.
  - intros [= _ <-]. right. exists account. split; [reflexivity | exact Hu].
Qed.

(** ** What travels between the page and the contract *)

Lemma ascii_wellFormed (s : jsstring) :
  forallb is_ascii s = true -> isWellFormed s = true /\ stripBOM s = s.
Proof.
  intros H. split.
  - induction s as [|c r IH]; [reflexivity|]. cbn [forallb] in H.
    apply andb_true_iff in H as [Hc Hr]. unfold is_ascii in Hc.
    apply andb_true_iff in Hc as [H0 H1]. apply Z.leb_le in H0. apply Z.ltb_lt in H1.
    cbn [isWellFormed]. unfold isHighSurrogate, isLowSurrogate.
    replace (55296 <=? c)%Z with false by (symmetry; apply Z.leb_gt; lia).
    replace (56320 <=? c)%Z with false by (symmetry; apply Z.leb_gt; lia).
    replace (0 <=? c)%Z with true by (symmetry; apply Z.leb_le; lia).
    replace (c <? 65536)%Z with true by (symmetry; apply Z.ltb_lt; lia).
    simpl. apply IH, Hr.
  - destruct s as [|c r]; [reflexivity|]. cbn [forallb] in H.
    apply andb_true_iff in H as [Hc _]. unfold is_ascii in Hc.
    apply andb_true_iff in Hc as [_ H1]. apply Z.ltb_lt in H1.
    cbn [stripBOM]. replace (c =? BOM)%Z with false; [reflexivity|].
    symmetry. apply Z.eqb_neq. unfold BOM. lia.
Qed.

Lemma lowerHex_ascii (s : jsstring) :
  forallb isLowerHex s = true -> forallb is_ascii s = true.
Proof.
  intros H. apply forallb_forall. intros c Hc.
  apply (proj1 (forallb_forall _ _) H) in Hc.
  unfold isLowerHex in Hc. unfold is_ascii.
  rewrite orb_true_iff, !andb_true_iff, !Z.leb_le in Hc.
  apply andb_true_iff. rewrite Z.leb_le, Z.ltb_lt. lia.
Qed.

Lemma encryptBody_ascii (secret : jsstring) (iv : bytes) (body : jsstring) :
  forallb is_ascii (encryptBody secret iv body) = true.
Proof.
  unfold encryptBody. rewrite !forallb_app.
  rewrite (lowerHex_ascii (toHex iv)) by apply toHex_lowerHex.
  rewrite (lowerHex_ascii (toHex (aes_gcm_encrypt _ _ _))) by apply toHex_lowerHex.
  reflexivity.
Qed.

(** A text of ASCII characters sent to the contract and read back from it
    is the same text. *)
Lemma abi_roundtrip (s : jsstring) :
  forallb is_ascii s = true -> abi_decode_string (abi_string s) = s.
Proof.
  intros H. destruct (ascii_wellFormed s H) as [Hw Hb].
  unfold abi_decode_string, abi_string.
  rewrite list_byte_of_string_of_list_byte, decode_encode by exact Hw. exact Hb.
Qed.

Lemma encode_nonempty (s : jsstring) : s <> [] -> encode s <> [].
Proof.
  destruct s as [|c r]; [contradiction|]. intros _ H.
  apply (f_equal (@length byte)) in H. unfold encode in H.
  rewrite length_map in H.
  assert (Hcp : forall cp l, length (utf8_encode_cp cp ++ l) <> 0%nat).
  { intros cp l. unfold utf8_encode_cp.
    destruct (cp <? 128)%Z; [discriminate|]. destruct (cp <? 2048)%Z; [discriminate|].
    destruct (cp <? 65536)%Z; discriminate. }
  cbn [toScalars] in H.
  destruct (isHighSurrogate c).
  - destruct r as [|d r']; [discriminate|].
    destruct (isLowSurrogate d); cbn [flat_map] in H; exact (Hcp _ _ H).
  - destruct (isLowSurrogate c); cbn [flat_map] in H; exact (Hcp _ _ H).
Qed.

Lemma abi_string_nonempty (s : jsstring) : s <> [] -> abi_string s <> ""%string.
Proof.
  intros Hs H. apply (encode_nonempty s Hs). unfold abi_string in H.
  apply (f_equal list_byte_of_string) in H.
  rewrite list_byte_of_string_of_list_byte in H. exact H.
Qed.

(** On ASCII text the contract library's encoding keeps every code unit
    as one byte, as TextEncoder does. *)
Lemma toUtf8Bytes_ascii (s : jsstring) :
  forallb is_ascii s = true -> toUtf8Bytes s = Some s.
Proof.
  induction s as [|c r IH]; [reflexivity|]. cbn [forallb]. intros H.
  apply andb_true_iff in H as [Hc Hr]. unfold is_ascii in Hc.
  apply andb_true_iff in Hc as [_ H1]. cbn [toUtf8Bytes]. rewrite H1, (IH Hr).
  reflexivity.
Qed.

Lemma encode_ascii (s : jsstring) :
  forallb is_ascii s = true -> encode s = map byte_of_Z s.
Proof.
  intros H. unfold encode. f_equal.
  induction s as [|c r IH]; [reflexivity|]. cbn [forallb] in H.
  apply andb_true_iff in H as [Hc Hr]. unfold is_ascii in Hc.
  apply andb_true_iff in Hc as [H0 H1]. apply Z.leb_le in H0.
  cbn [toScalars]. unfold isHighSurrogate, isLowSurrogate.
  replace (55296 <=? c)%Z with false by (symmetry; apply Z.leb_gt; apply Z.ltb_lt in H1; lia).
  replace (56320 <=? c)%Z with false by (symmetry; apply Z.leb_gt; apply Z.ltb_lt in H1; lia).
  cbn [andb flat_map]. unfold utf8_encode_cp at 1. rewrite H1. cbn [app].
  rewrite (IH Hr). reflexivity.
Qed.

Lemma abi_encode_string_ascii (s : jsstring) :
  forallb is_ascii s = true -> abi_encode_string s = Some (abi_string s).
Proof.
  intros H. unfold abi_encode_string, abi_string.
  rewrite (toUtf8Bytes_ascii s H), (encode_ascii s H). reflexivity.
Qed.

(** X29. The payload that [updateBody] sends is made of ASCII characters:
    the contract library encodes it without throwing, and the bytes it
    sends are those of [abi_string]. *)
Theorem abi_encode_string_payload (secret : jsstring) (iv : bytes) (body : jsstring) :
  forallb is_ascii (encryptBody secret iv body) = true /\
  abi_encode_string (encryptBody secret iv body)
  = Some (abi_string (encryptBody secret iv body)).
Proof.
  split; [apply encryptBody_ascii|].
  apply abi_encode_string_ascii, encryptBody_ascii.
Qed.



Context {L : WebCryptoLaws W}.

Lemma readable_payload (secret : jsstring) (iv : bytes) (body : jsstring) :
  length iv = 12%nat -> isWellFormed body = true -> hd_error body <> Some BOM ->
  decryptBody secret (abi_decode_string (abi_string (encryptBody secret iv body)))
  = inr body.
Proof.
  intros Hiv Hw Hb. rewrite abi_roundtrip by apply encryptBody_ascii.
  rewrite decryptBody_encryptBody_text by exact Hiv.
  rewrite decode_encode by exact Hw.
  destruct body as [|c r]; [reflexivity|]. cbn [stripBOM].
  destruct (Z.eqb_spec c BOM) as [->|_]; [|reflexivity].
  exfalso. apply Hb. reflexivity.
Qed.

Lemma updated_activeDocument (a : AppState) (chain chain' : State) doc account now self body :
  reachable chain -> activeDocument a = Some doc ->
  updateDocumentBody (mkEnv account now self) (activeDocumentIndex a) body chain
  = inr (tt, chain') ->
  exists d',
    activeDocument (setDocuments (getDocuments chain') a) = Some d' /\
    encryptedBody d' = body.
Proof.
  intros Hr Ha Hu. apply reachable_Inv in Hr as [H1 _ _ _ _ _ _ _].
  apply updateDocumentBody_inr in Hu as (Hex & _ & ->).
  unfold activeDocument, activeDocumentIndex in *. simpl.
  destruct (selectedId a) as [[|i]|]; [discriminate | | discriminate].
  apply H1 in Hex. rewrite nth_error_getDocuments. simpl _documentCount.
  replace (N.to_nat (N.pos i - 1) <? N.to_nat (_documentCount chain))%nat with true
    by (symmetry; apply Nat.ltb_lt; lia).
  replace (N.of_nat (N.to_nat (N.pos i - 1)) + 1) with (N.pos i) by lia.
  eexists. split; [reflexivity|]. rewrite doc_at_insert.
  destruct (decide (N.pos i = N.pos i)); [reflexivity | contradiction].
Qed.

(** X21. Write, then read. When the ledger accepts the write of
    [updateBody], the page shows the draft as the decrypted body and holds
    the refreshed list of documents, and the body now stored for the
    active document, read back from the contract, decrypts under the
    recovered secret to the draft, for a draft that is well-formed and
    does not begin with U+FEFF. *)
Theorem updateBody_then_read account iv now self (a : AppState) (chain chain' : State) doc :
  reachable chain ->
  activeDocument a = Some doc -> clearSecret a <> [] ->
  length iv = 12%nat ->
  isWellFormed (bodyDraft a) = true -> hd_error (bodyDraft a) <> Some BOM ->
  updateDocumentBody (mkEnv account now self) (activeDocumentIndex a)
    (abi_string (encryptBody (clearSecret a) iv (bodyDraft a))) chain
  = inr (tt, chain') ->
  exists a' d',
    updateBody (Some account) iv now self a chain = inr (a', chain') /\
    status a' = Some "Document updated on-chain."%string /\
    isUpdating a' = false /\
    decryptedBody a' = bodyDraft a /\
    documents a' = getDocuments chain' /\
    activeDocument a' = Some d' /\
    decryptBody (clearSecret a) (abi_decode_string (encryptedBody d'))
    = inr (bodyDraft a).
Proof.
  intros Hr Ha Hs Hiv Hw Hb Hu.
  destruct (updated_activeDocument a chain chain' doc account now self _ Hr Ha Hu)
    as (d' & Hd' & Hbody).
  unfold updateBody. rewrite Ha.
  destruct (clearSecret a) as [|c s] eqn:E; [contradiction|].
  rewrite Hu. eexists. exists d'. split; [reflexivity|]. simpl.
  split; [reflexivity|]. split; [reflexivity|]. split; [reflexivity|].
  split; [reflexivity|]. split; [exact Hd'|].
  rewrite Hbody. apply readable_payload; assumption.
Qed.

End More.

(** ** Creating, revealing, sharing *)

Section Handlers.
Context {CVS : ConfidentialValueStore} {W : WebCrypto}.
Variable encryptInput : address -> address -> Z -> option (N * string).
Variable resolveAddress : jsstring -> option address.




Lemma bigint_toString_nonempty (z : Z) : bigint_toString z <> [].
Proof.
  assert (H : forall u, u <> Decimal.Nil -> uint_digits u <> []).
  { intros u Hu. destruct u; [contradiction | discriminate..]. }
  unfold bigint_toString. destruct z as [|q|q]; simpl.
  - discriminate.
  - apply H, DecimalPos.Unsigned.to_uint_nonnil.
  - discriminate.
Qed.

(** X24. A secret of zero is no secret: when the relayer returns 0 for the
    handle, [decryptSecret] ends exactly as when the relayer returns
    nothing, reporting a failure and recovering no secret. *)
Theorem decryptSecret_zero_is_missing account ready signer (p : PageState) doc user who :
  account = Some user -> ready = true -> signer = Some who ->
  activeDocument (app p) = Some doc ->
  decryptSecret account ready signer (Some (Some 0%Z)) p
  = decryptSecret account ready signer (Some None) p /\
  clearSecret (app (decryptSecret account ready signer (Some (Some 0%Z)) p))
  = clearSecret (app p) /\
  status (app (decryptSecret account ready signer (Some (Some 0%Z)) p))
  = Some "Failed to decrypt. Ensure you have been granted access."%string /\
  pageConsole (decryptSecret account ready signer (Some (Some 0%Z)) p)
  = pageConsole p ++ [NoSecretReturned].
Proof.
  intros -> -> -> Ha. unfold decryptSecret. rewrite Ha. repeat split.
Qed.

(** X25. The secret outlives a body that cannot be read: when the relayer
    returns a secret that is not zero and the stored body fails to
    decrypt, [decryptSecret] reports the failure and leaves the decrypted
    body and the draft as they were, yet keeps the recovered secret in the
    page, which is all [updateBody] asks for to overwrite that body. *)
Theorem decryptSecret_keeps_secret user who z (p : PageState) doc err :
  activeDocument (app p) = Some doc -> z <> 0%Z ->
  abi_decode_string (encryptedBody doc) <> [] ->
  decryptBody (bigint_toString z) (abi_decode_string (encryptedBody doc)) = inl err ->
  let p' := decryptSecret (Some user) true (Some who) (Some (Some z)) p in
  clearSecret (app p') = bigint_toString z /\ clearSecret (app p') <> [] /\
  activeDocument (app p') = Some doc /\
  status (app p') = Some "Failed to decrypt. Ensure you have been granted access."%string /\
  decryptedBody (app p') = decryptedBody (app p) /\
  bodyDraft (app p') = bodyDraft (app p) /\
  pageConsole p' = pageConsole p ++ [BodyUnreadable err] /\
  isDecrypting p' = false.
Proof.
  intros Ha Hz Hb Hd. unfold decryptSecret. rewrite Ha.
  destruct z as [|q|q]; [contradiction | |];
    (destruct (abi_decode_string (encryptedBody doc)) as [|c r] eqn:E; [contradiction|];
     rewrite Hd; simpl;
     split; [reflexivity|]; split; [apply bigint_toString_nonempty|];
     split; [exact Ha|]; repeat split).
Qed.

Context {L : WebCryptoLaws W}.

(** X26. Write, then reveal. After an [updateBody] the ledger accepted,
    a [decryptSecret] on the page that the relayer answers with the same
    secret shows the draft that was written, as decrypted body and as
    draft, for a draft that is well-formed and does not begin with
    U+FEFF. *)
Theorem write_then_reveal account iv now self (a a' : AppState) (chain chain' : State)
    doc z user who (p : PageState) :
  reachable chain ->
  activeDocument a = Some doc -> clearSecret a = bigint_toString z -> z <> 0%Z ->
  length iv = 12%nat ->
  isWellFormed (bodyDraft a) = true -> hd_error (bodyDraft a) <> Some BOM ->
  updateDocumentBody (mkEnv account now self) (activeDocumentIndex a)
    (abi_string (encryptBody (clearSecret a) iv (bodyDraft a))) chain
  = inr (tt, chain') ->
  updateBody (Some account) iv now self a chain = inr (a', chain') ->
  app p = a' ->
  let p' := decryptSecret (Some user) true (Some who) (Some (Some z)) p in
  decryptedBody (app p') = bodyDraft a /\
  bodyDraft (app p') = bodyDraft a /\
  clearSecret (app p') = clearSecret a /\
  status (app p')
  = Some "Secret decrypted. You can now read and edit the document body."%string /\
  pageConsole p' = pageConsole p /\
  isDecrypting p' = false.
Proof.
  intros Hr Ha Hs Hz Hiv Hw Hb Hu Hup Hp.
  destruct (SessionMore.updated_activeDocument a chain chain' doc account now self _ Hr Ha Hu)
    as (d' & Hd' & Hbody).
  assert (Hact : activeDocument (app p) = Some d').
  { rewrite Hp. unfold updateBody in Hup. rewrite Ha in Hup.
    destruct (clearSecret a) as [|c s] eqn:E.
    - exfalso. symmetry in Hs. exact (bigint_toString_nonempty z Hs).
    - rewrite Hu in Hup. injection Hup as <-. exact Hd'. }
  assert (Hread : abi_decode_string (encryptedBody d')
                  = encryptBody (clearSecret a) iv (bodyDraft a)).
  { rewrite Hbody. apply SessionMore.abi_roundtrip, SessionMore.encryptBody_ascii. }
  assert (Hdec : decryptBody (bigint_toString z) (abi_decode_string (encryptedBody d'))
                 = inr (bodyDraft a)).
  { rewrite <- Hs, Hbody. apply SessionMore.readable_payload; assumption. }
  assert (Hne : abi_decode_string (encryptedBody d') <> []).
  { rewrite Hread. unfold encryptBody. destruct (toHex iv); discriminate. }
  unfold decryptSecret. rewrite Hact.
  destruct z as [|q|q]; [contradiction | |];
    (destruct (abi_decode_string (encryptedBody d')) as [|c r] eqn:E; [contradiction|];
     rewrite Hdec; simpl; rewrite Hs; repeat split).
Qed.



(** X28. Whatever makes the sharing fail, an address the library refuses
    or any revert of the contract, the page's [grantAccess] shows one and
    the same message, writes the cause to the console and leaves the
    ledger and the address field as they were. *)
Theorem page_grantAccess_fails who now self (p : PageState) (chain : State) doc err :
  grantTarget p <> [] -> activeDocument (app p) = Some doc ->
  (resolveAddress (grantTarget p) = None /\ err = BadAddress) \/
  (exists g e,
     resolveAddress (grantTarget p) = Some g /\
     Vault.grantAccess (mkEnv who now self) (activeDocumentIndex (app p)) g chain = inl e /\
     err = Reverted e) ->
  exists p',
    Page.grantAccess resolveAddress (Some who) now self p chain = (p', chain) /\
    status (app p')
    = Some "Unable to grant access. Only the owner can share the document."%string /\
    pageConsole p' = pageConsole p ++ [err] /\
    grantTarget p' = grantTarget p /\ collaboratorData p' = collaboratorData p /\
    isGranting p' = false.
Proof.
  intros Ht Ha Hf. unfold Page.grantAccess. rewrite Ha.
  destruct (grantTarget p) as [|c r] eqn:E; [contradiction|].
  destruct Hf as [[Hr ->] | (g & e & Hr & Hg & ->)].
  - rewrite Hr. eexists. split; [reflexivity|]. repeat split. exact E.
  - rewrite Hr, Hg. eexists. split; [reflexivity|]. repeat split. exact E.
Qed.

End Handlers.
End SessionMore.

(** ** These properties at work *)

Module CodecMoreExamples.
Import Codec CodecText CodecFacts CodecMore CodecExamples Scenario Scenario3.
Local Open Scope Z_scope.
#[local] Existing Instance TagCipher.cipher.

Lemma toHex_inverts_fromHex_witness :
  forallb isLowerHex hexText = true /\ Nat.even (length hexText) = true /\
  exists bs,
    fromHex hexText = inr bs /\ toHex bs = hexText /\
    (2 * length bs = length hexText)%nat.
Proof.
  split; [reflexivity|]. split; [reflexivity|].
  exact (toHex_inverts_fromHex hexText eq_refl eq_refl).
Defined.

Lemma toUtf8Bytes_wellFormed_witness :
  isWellFormed accented = true /\
  toUtf8Bytes accented = Some (flat_map utf8_encode_cp (toScalars accented)) /\
  Session.abi_encode_string accented = Some (Session.abi_string accented).
Proof.
  split; [reflexivity|]. exact (toUtf8Bytes_wellFormed accented eq_refl).
Defined.

(** The bytes of some texts: two, three and four bytes for the characters
    of [accented]; a high surrogate with no low one after it makes the
    function throw; a low surrogate on its own gets three bytes. *)
Example toUtf8Bytes_examples :
  toUtf8Bytes accented = Some [195; 169; 226; 130; 172; 240; 159; 152; 128] /\
  toUtf8Bytes [55296] = None /\
  toUtf8Bytes [55296; 65] = None /\
  toUtf8Bytes [65; 55296] = None /\
  toUtf8Bytes [56320] = Some [237; 176; 128] /\
  map byte_to_Z (encode [56320]) = [239; 191; 189].
Proof. repeat split. Qed.

Lemma encryptBody_nonce_shows_witness :
  nonce <> nonce2 /\
  encryptBody secret nonce draft <> encryptBody secret nonce2 draft.
Proof.
  assert (H : nonce <> nonce2) by discriminate.
  split; [exact H|]. exact (encryptBody_nonce_shows secret draft nonce nonce2 H).
Defined.

Lemma decryptBody_ignores_tail_witness :
  existsb (fun c => c =? COLON) (encryptBody secret nonce draft) = true /\
  decryptBody secret (encryptBody secret nonce draft ++ COLON :: ascii_js "anything")
  = decryptBody secret (encryptBody secret nonce draft).
Proof.
  split; [reflexivity|].
  exact (decryptBody_ignores_tail secret (encryptBody secret nonce draft)
           (ascii_js "anything") eq_refl).
Defined.

Lemma encryptBody_format_witness :
  length nonce = 12%nat /\
  exists ivHex dataHex,
    encryptBody secret nonce draft = ivHex ++ COLON :: dataHex /\
    length ivHex = 24%nat /\ fromHex ivHex = inr nonce /\
    forallb isLowerHex ivHex = true /\ forallb isLowerHex dataHex = true /\
    length dataHex = (2 * length (encode draft) + 32)%nat.
Proof.
  split; [reflexivity|].
  exact (encryptBody_format (L := TagCipher_laws) secret nonce draft eq_refl).
Defined.

Lemma decryptBody_encryptBody_any_witness :
  length nonce = 12%nat /\ Forall code_unit [BOM; 55296; 104] /\
  decryptBody secret (encryptBody secret nonce [BOM; 55296; 104])
  = inr (stripBOM (toWellFormed [BOM; 55296; 104])).
Proof.
  assert (H : Forall code_unit [BOM; 55296; 104]).
  { repeat constructor; unfold BOM; lia. }
  split; [reflexivity|]. split; [exact H|].
  exact (decryptBody_encryptBody_any (L := TagCipher_laws) secret nonce
           [BOM; 55296; 104] eq_refl H).
Defined.

End CodecMoreExamples.

Module SessionMoreExamples.
Import Vault Codec CodecText Session Page Scenario Scenario2 Scenario3.
Import VaultFacts VaultExamples VaultMoreExamples CodecExamples SessionMore.
#[local] Existing Instance MapStore.store.
#[local] Existing Instance TagCipher.cipher.

Lemma activeDocument_by_id_witness :
  reachable created /\ documents app = getDocuments created /\
  (activeDocument app = Some doc1 <->
   exists i, selectedId app = Some i /\ activeDocumentIndex app = i /\
             getDocument i created = inr doc1).
Proof.
  split; [exact created_reachable|]. split; [reflexivity|].
  exact (activeDocument_by_id app created doc1 created_reachable eq_refl).
Defined.

Lemma afterWrite_is :
  updateBody (Some bob) nonce 300 vault app shared = inr (fst afterWrite, snd afterWrite).
Proof. reflexivity. Qed.

Lemma afterWrite_call :
  updateDocumentBody (by_ bob 300) (activeDocumentIndex app)
    (abi_string (encryptBody (clearSecret app) nonce (bodyDraft app))) shared
  = inr (tt, snd afterWrite).
Proof. reflexivity. Qed.

Lemma updateBody_one_call_witness :
  updateBody (Some bob) nonce 300 vault app shared = inr (fst afterWrite, snd afterWrite) /\
  (snd afterWrite = shared \/
   exists account,
     Some bob = Some account /\
     updateDocumentBody (mkEnv account 300 vault) (activeDocumentIndex app)
       (abi_string (encryptBody (clearSecret app) nonce (bodyDraft app))) shared
     = inr (tt, snd afterWrite)).
Proof.
  split; [exact afterWrite_is|].
  exact (updateBody_one_call (Some bob) nonce 300 vault app (fst afterWrite)
           shared (snd afterWrite) afterWrite_is).
Defined.

Lemma draft_has_no_mark : hd_error (bodyDraft app) <> Some BOM.
Proof. discriminate. Qed.

Lemma updateBody_then_read_witness :
  reachable shared /\ activeDocument app = Some doc1 /\ clearSecret app <> [] /\
  length nonce = 12%nat /\ isWellFormed (bodyDraft app) = true /\
  hd_error (bodyDraft app) <> Some BOM /\
  exists a' d',
    updateBody (Some bob) nonce 300 vault app shared = inr (a', snd afterWrite) /\
    status a' = Some "Document updated on-chain."%string /\
    isUpdating a' = false /\
    decryptedBody a' = bodyDraft app /\
    documents a' = getDocuments (snd afterWrite) /\
    activeDocument a' = Some d' /\
    decryptBody (clearSecret app) (abi_decode_string (encryptedBody d'))
    = inr (bodyDraft app).
Proof.
  assert (Hs : clearSecret app <> []) by discriminate.
  split; [exact shared_reachable|]. split; [reflexivity|]. split; [exact Hs|].
  split; [reflexivity|]. split; [reflexivity|]. split; [exact draft_has_no_mark|].
  exact (updateBody_then_read (L := TagCipher_laws) bob nonce 300 vault app shared
           (snd afterWrite) doc1 shared_reachable eq_refl Hs eq_refl eq_refl
           draft_has_no_mark afterWrite_call).
Defined.


(** A name of white space only stops the handler before any call. *)
Example handleCreateDocument_blank_name :
  let r := handleCreateDocument relayerInput (Some alice) true (Some alice) 123456789
             600 vault blankPage shared in
  trim (nameInput blankPage) = [] /\
  snd r = shared /\ pageConsole (fst r) = pageConsole blankPage /\
  status (Page.app (fst r)) = Some "Please give your document a name."%string.
Proof. repeat split. Qed.

(** A low surrogate on its own is encoded in three bytes, ED B0 80, and
    the document is stored under them. *)
Example handleCreateDocument_lone_low :
  let r := handleCreateDocument relayerInput (Some alice) true (Some alice) 123456789
             600 vault tailPage shared in
  abi_encode_string (trim (nameInput tailPage))
  = Some (String "237" (String "176" (String "128" EmptyString))) /\
  pageConsole (fst r) = pageConsole tailPage /\
  getDocument 2 (snd r)
  = inr (mkDocument (String "237" (String "176" (String "128" EmptyString)))
           "" 2 alice 600).
Proof. repeat split. Qed.

(** A secret that does not fit 64 bits: building the encrypted input
    throws and nothing reaches the ledger. *)
Example handleCreateDocument_huge_secret :
  let r := handleCreateDocument relayerInput (Some alice) true (Some alice) 123456789
             600 vault hugePage shared in
  pageConsole (fst r) = pageConsole hugePage ++ [InputFailed] /\ snd r = shared.
Proof. repeat split. Qed.

(** An encrypted input that the authority refuses: the contract reverts,
    the console gets the error and nothing is created. *)
Example handleCreateDocument_refused_input :
  let r := handleCreateDocument (fun _ _ _ => Some (7, EmptyString)) (Some alice) true
             (Some alice) 123456789 600 vault page shared in
  pageConsole (fst r) = pageConsole page ++ [Reverted InputRejected] /\ snd r = shared.
Proof. repeat split. Qed.


Lemma decryptSecret_zero_is_missing_witness :
  activeDocument (Page.app page) = Some doc1 /\
  decryptSecret (Some alice) true (Some alice) (Some (Some 0%Z)) page
  = decryptSecret (Some alice) true (Some alice) (Some None) page /\
  clearSecret (Page.app (decryptSecret (Some alice) true (Some alice) (Some (Some 0%Z)) page))
  = clearSecret (Page.app page) /\
  status (Page.app (decryptSecret (Some alice) true (Some alice) (Some (Some 0%Z)) page))
  = Some "Failed to decrypt. Ensure you have been granted access."%string /\
  pageConsole (decryptSecret (Some alice) true (Some alice) (Some (Some 0%Z)) page)
  = pageConsole page ++ [NoSecretReturned].
Proof.
  split; [reflexivity|].
  exact (decryptSecret_zero_is_missing (Some alice) true (Some alice) page doc1
           alice alice eq_refl eq_refl eq_refl eq_refl).
Defined.

Lemma decryptSecret_keeps_secret_witness :
  activeDocument (Page.app stalePage) = Some staleDoc /\ 123456789%Z <> 0%Z /\
  abi_decode_string (encryptedBody staleDoc) <> [] /\
  decryptBody (bigint_toString 123456789) (abi_decode_string (encryptedBody staleDoc))
  = inl MalformedPayload /\
  let p' := decryptSecret (Some bob) true (Some bob) (Some (Some 123456789%Z)) stalePage in
  clearSecret (Page.app p') = bigint_toString 123456789 /\ clearSecret (Page.app p') <> [] /\
  activeDocument (Page.app p') = Some staleDoc /\
  status (Page.app p') = Some "Failed to decrypt. Ensure you have been granted access."%string /\
  decryptedBody (Page.app p') = decryptedBody (Page.app stalePage) /\
  bodyDraft (Page.app p') = bodyDraft (Page.app stalePage) /\
  pageConsole p' = pageConsole stalePage ++ [BodyUnreadable MalformedPayload] /\
  isDecrypting p' = false.
Proof.
  assert (Hz : 123456789%Z <> 0%Z) by discriminate.
  assert (Hb : abi_decode_string (encryptedBody staleDoc) <> []) by discriminate.
  split; [reflexivity|]. split; [exact Hz|]. split; [exact Hb|].
  split; [reflexivity|].
  exact (decryptSecret_keeps_secret bob bob 123456789%Z stalePage staleDoc
           MalformedPayload eq_refl Hz Hb eq_refl).
Defined.

Lemma write_then_reveal_witness :
  reachable shared /\ activeDocument app = Some doc1 /\
  clearSecret app = bigint_toString 123456789 /\ 123456789%Z <> 0%Z /\
  length nonce = 12%nat /\ isWellFormed (bodyDraft app) = true /\
  hd_error (bodyDraft app) <> Some BOM /\
  Page.app pageAfterWrite = fst afterWrite /\
  let p' := decryptSecret (Some bob) true (Some bob) (Some (Some 123456789%Z))
              pageAfterWrite in
  decryptedBody (Page.app p') = bodyDraft app /\
  bodyDraft (Page.app p') = bodyDraft app /\
  clearSecret (Page.app p') = clearSecret app /\
  status (Page.app p')
  = Some "Secret decrypted. You can now read and edit the document body."%string /\
  pageConsole p' = pageConsole pageAfterWrite /\
  isDecrypting p' = false.
Proof.
  assert (Hz : 123456789%Z <> 0%Z) by discriminate.
  split; [exact shared_reachable|]. split; [reflexivity|]. split; [reflexivity|].
  split; [exact Hz|]. split; [reflexivity|]. split; [reflexivity|].
  split; [exact draft_has_no_mark|]. split; [reflexivity|].
  exact (write_then_reveal (L := TagCipher_laws) bob nonce 300 vault app (fst afterWrite)
           shared (snd afterWrite) doc1 123456789%Z bob bob pageAfterWrite
           shared_reachable eq_refl eq_refl Hz eq_refl eq_refl draft_has_no_mark
           afterWrite_call afterWrite_is eq_refl).
Defined.


Lemma page_grantAccess_fails_witness :
  grantTarget page <> [] /\ activeDocument (Page.app page) = Some doc1 /\
  addressBook (grantTarget page) = Some carol /\
  Vault.grantAccess (by_ bob 500) (activeDocumentIndex (Page.app page)) carol shared
  = inl (NotDocumentOwner bob) /\
  exists p',
    Page.grantAccess addressBook (Some bob) 500 vault page shared = (p', shared) /\
    status (Page.app p')
    = Some "Unable to grant access. Only the owner can share the document."%string /\
    pageConsole p' = pageConsole page ++ [Reverted (NotDocumentOwner bob)] /\
    grantTarget p' = grantTarget page /\ collaboratorData p' = collaboratorData page /\
    isGranting p' = false.
Proof.
  assert (Ht : grantTarget page <> []) by discriminate.
  split; [exact Ht|]. split; [reflexivity|]. split; [reflexivity|].
  split; [reflexivity|].
  refine (page_grantAccess_fails addressBook bob 500 vault page shared doc1
            (Reverted (NotDocumentOwner bob)) Ht eq_refl _).
  right. exists carol, (NotDocumentOwner bob). repeat split.
Defined.

End SessionMoreExamples.
